(** * Shuttle: configuration resolution, subject naming and the NATS
      connection helper

    A shallow embedding of the core of the Shuttle command-line client:
    the [LoomSubjects] subject builders, the two generations of the NATS
    connection helper ([getNATSConnection] / [closeNATSConnection]), the
    priority fallback of the [submit] command, the failure paths of the
    [work show] and [targets show] commands, and the configuration store
    ([loadConfig], [saveConfig], [validateConfig]). *)

From Stdlib Require Import ZArith String Ascii List Bool Lia.
From stdpp Require Import base option list strings gmap fin_maps pretty.
Import ListNotations.

Local Open Scope string_scope.
Local Open Scope list_scope.

(** ** JavaScript values used by the embedded code *)

(** Truthiness of a string: only the empty string is falsy. *)
Definition truthyStr (s : string) : bool :=
  match s with
  | EmptyString => false
  | String _ _ => true
  end.

(** An optional string property ([undefined] is [None]). *)
Definition truthyOpt (o : option string) : bool :=
  match o with
  | Some s => truthyStr s
  | None => false
  end.

(** [a || b] on an optional string with a string fallback. *)
Definition orElseStr (o : option string) (fallback : string) : string :=
  match o with
  | Some s => if truthyStr s then s else fallback
  | None => fallback
  end.

(** The outcome of a call that may throw: [Throw msg] is a raised
    [Error] with message [msg]. *)
Inductive Outcome (A : Type) : Type :=
  | Return (a : A)
  | Throw (message : string).
Arguments Return {A} a.
Arguments Throw {A} message.

(** ** Subject builders ([LoomSubjects]) *)

Module LoomSubjects.

(* Work submission and management *)
Definition workSubmit (projectId : string) : string :=
  "loom." +:+ projectId +:+ ".work.submit".

Definition workStatus (projectId workItemId : string) : string :=
  "loom." +:+ projectId +:+ ".work.status." +:+ workItemId.

Definition workList (projectId : string) : string :=
  "loom." +:+ projectId +:+ ".work.list".

Definition workGet (projectId : string) : string :=
  "loom." +:+ projectId +:+ ".work.get".

Definition workCancel (projectId : string) : string :=
  "loom." +:+ projectId +:+ ".work.cancel".

(* Agent management *)
Definition agentsList (projectId : string) : string :=
  "loom." +:+ projectId +:+ ".agents.list".

Definition agentDetails (projectId agentGuid : string) : string :=
  "loom." +:+ projectId +:+ ".agents." +:+ agentGuid.

Definition agentShutdown (projectId : string) : string :=
  "loom." +:+ projectId +:+ ".agents.shutdown".

(* Targets *)
Definition targetsList (projectId : string) : string :=
  "loom." +:+ projectId +:+ ".targets.list".

Definition targetsRegister (projectId : string) : string :=
  "loom." +:+ projectId +:+ ".targets.register".

Definition targetsGet (projectId : string) : string :=
  "loom." +:+ projectId +:+ ".targets.get".

Definition targetsUpdate (projectId : string) : string :=
  "loom." +:+ projectId +:+ ".targets.update".

Definition targetsRemove (projectId : string) : string :=
  "loom." +:+ projectId +:+ ".targets.remove".

Definition targetsTest (projectId : string) : string :=
  "loom." +:+ projectId +:+ ".targets.test".

Definition targetsEnable (projectId : string) : string :=
  "loom." +:+ projectId +:+ ".targets.enable".

Definition targetsDisable (projectId : string) : string :=
  "loom." +:+ projectId +:+ ".targets.disable".

(* Spin-up operations *)
Definition spinUpTrigger (projectId : string) : string :=
  "loom." +:+ projectId +:+ ".spinup.trigger".

Definition spinUpStatus (projectId : string) : string :=
  "loom." +:+ projectId +:+ ".spinup.status".

Definition spinUpList (projectId : string) : string :=
  "loom." +:+ projectId +:+ ".spinup.list".

(* Stats *)
Definition stats (projectId : string) : string :=
  "loom." +:+ projectId +:+ ".stats".

End LoomSubjects.

(** One constructor per method of the class, carrying the method's
    arguments. *)
Inductive Method : Type :=
  | WorkSubmit
  | WorkStatus (workItemId : string)
  | WorkList
  | WorkGet
  | WorkCancel
  | AgentsList
  | AgentDetails (agentGuid : string)
  | AgentShutdown
  | TargetsList
  | TargetsRegister
  | TargetsGet
  | TargetsUpdate
  | TargetsRemove
  | TargetsTest
  | TargetsEnable
  | TargetsDisable
  | SpinUpTrigger
  | SpinUpStatus
  | SpinUpList
  | Stats.

(** [invoke projectId m] is the call [new LoomSubjects(projectId).m(...)]. *)
Definition invoke (projectId : string) (m : Method) : string :=
  match m with
  | WorkSubmit => LoomSubjects.workSubmit projectId
  | WorkStatus workItemId => LoomSubjects.workStatus projectId workItemId
  | WorkList => LoomSubjects.workList projectId
  | WorkGet => LoomSubjects.workGet projectId
  | WorkCancel => LoomSubjects.workCancel projectId
  | AgentsList => LoomSubjects.agentsList projectId
  | AgentDetails agentGuid => LoomSubjects.agentDetails projectId agentGuid
  | AgentShutdown => LoomSubjects.agentShutdown projectId
  | TargetsList => LoomSubjects.targetsList projectId
  | TargetsRegister => LoomSubjects.targetsRegister projectId
  | TargetsGet => LoomSubjects.targetsGet projectId
  | TargetsUpdate => LoomSubjects.targetsUpdate projectId
  | TargetsRemove => LoomSubjects.targetsRemove projectId
  | TargetsTest => LoomSubjects.targetsTest projectId
  | TargetsEnable => LoomSubjects.targetsEnable projectId
  | TargetsDisable => LoomSubjects.targetsDisable projectId
  | SpinUpTrigger => LoomSubjects.spinUpTrigger projectId
  | SpinUpStatus => LoomSubjects.spinUpStatus projectId
  | SpinUpList => LoomSubjects.spinUpList projectId
  | Stats => LoomSubjects.stats projectId
  end.

(** The five groups of the class (its section comments). *)
Definition categories : list string :=
  ["work"; "agents"; "targets"; "spinup"; "stats"].

Definition category (m : Method) : string :=
  match m with
  | WorkSubmit | WorkStatus _ | WorkList | WorkGet | WorkCancel => "work"
  | AgentsList | AgentDetails _ | AgentShutdown => "agents"
  | TargetsList | TargetsRegister | TargetsGet | TargetsUpdate
  | TargetsRemove | TargetsTest | TargetsEnable | TargetsDisable => "targets"
  | SpinUpTrigger | SpinUpStatus | SpinUpList => "spinup"
  | Stats => "stats"
  end.

(** The operation token a method writes after the category, if any. *)
Definition operation (m : Method) : option string :=
  match m with
  | WorkSubmit => Some "submit"
  | WorkStatus _ | SpinUpStatus => Some "status"
  | WorkList | AgentsList | TargetsList | SpinUpList => Some "list"
  | WorkGet | TargetsGet => Some "get"
  | WorkCancel => Some "cancel"
  | AgentShutdown => Some "shutdown"
  | TargetsRegister => Some "register"
  | TargetsUpdate => Some "update"
  | TargetsRemove => Some "remove"
  | TargetsTest => Some "test"
  | TargetsEnable => Some "enable"
  | TargetsDisable => Some "disable"
  | SpinUpTrigger => Some "trigger"
  | AgentDetails _ | Stats => None
  end.

(** The entity id a method takes, if any. *)
Definition entityId (m : Method) : option string :=
  match m with
  | WorkStatus workItemId => Some workItemId
  | AgentDetails agentGuid => Some agentGuid
  | _ => None
  end.

Definition operations : list string :=
  ["submit"; "status"; "list"; "get"; "cancel"; "shutdown"; "register";
   "update"; "remove"; "test"; "enable"; "disable"; "trigger"].

(** The hierarchy [root.<project>.<category>.<operation>[.<id>]]: tokens
    joined by dots, with a category of the list, an operation token and
    an optional entity id. *)
Definition hierarchy (projectId : string) (subject : string) : Prop :=
  ∃ (cat op : string) (id : option string),
    In cat categories ∧
    subject = String.concat "." (["loom"; projectId; cat; op] ++ option_list id).

(** No dot occurs in the string. *)
Fixpoint dotFree (s : string) : bool :=
  match s with
  | EmptyString => true
  | String c s' => negb (Ascii.eqb c ".") && dotFree s'
  end.

(** Every subject is the root, the project id, a dot and a remainder. *)
Definition remainder (m : Method) : string :=
  match m with
  | WorkStatus workItemId => "work.status." +:+ workItemId
  | AgentDetails agentGuid => "agents." +:+ agentGuid
  | Stats => "stats"
  | _ => category m +:+ "." +:+ default EmptyString (operation m)
  end.

(** ** The configuration record ([CLIConfiguration] of the shared package)

    Every property is optional here: the record is also read as
    [Partial<CLIConfiguration>], and the code reads [natsUrl] through a
    fallback although the interface declares it a string. Priorities are
    integers. *)
Record CLIConfiguration : Type := {
  natsUrl : option string;
  projectId : option string;
  natsCredentials : option string;
  defaultBoundary : option string;
  defaultPriority : option Z;
  outputFormat : option string;
  apiUrl : option string;
  apiToken : option string;
}.

Definition emptyConfiguration : CLIConfiguration :=
  {| natsUrl := None; projectId := None; natsCredentials := None;
     defaultBoundary := None; defaultPriority := None; outputFormat := None;
     apiUrl := None; apiToken := None |}.

(** ** The NATS library and the file system, as the helper sees them *)

Inductive Authenticator : Type :=
  | credsAuthenticator (credsContent : string).

Record ConnectionOptions : Type := {
  servers : string;
  name : string;
  maxReconnectAttempts : Z;
  reconnectTimeWait : Z;
  authenticator : option Authenticator;
}.

(** A connection object; [closed] is what [isClosed()] answers. *)
Record NatsConnection : Type := {
  connectedWith : ConnectionOptions;
  closed : bool;
  drained : bool;
}.

(** Calls that leave the process, oldest first in [events]. *)
Inductive Event : Type :=
  | ReadFile (path : string)
  | Connect (opts : ConnectionOptions)
  | Drain (connection : nat)
  | Close (connection : nat).

(** The state of the process: the module variable [cachedConnection]
    (a reference into [connections], [None] for [null]), the connection
    objects created so far and the calls made. *)
Record Process : Type := {
  cachedConnection : option nat;
  connections : list NatsConnection;
  events : list Event;
}.

(** What the outside answers: the content of a file or the message of
    the error raised on reading it, and whether a server accepts a
    connection with given options. *)
Record Environment : Type := {
  fileContents : string → Outcome string;
  reachable : ConnectionOptions → Outcome unit;
}.

(** Computations on the process state that may throw. *)
Definition M (A : Type) : Type := Process → Process * Outcome A.

Definition ret {A : Type} (a : A) : M A := λ w, (w, Return a).

Definition throw {A : Type} (message : string) : M A :=
  λ w, (w, Throw message).

Definition bind {A B : Type} (m : M A) (k : A → M B) : M B :=
  λ w, match m w with
       | (w', Return a) => k a w'
       | (w', Throw message) => (w', Throw message)
       end.

(** [try { m } catch (err) { handler(err.message) }]. *)
Definition tryCatch {A : Type} (m : M A) (handler : string → M A) : M A :=
  λ w, match m w with
       | (w', Return a) => (w', Return a)
       | (w', Throw message) => handler message w'
       end.

Notation "'let*' x ':=' m 'in' k" := (bind m (λ x, k))
  (at level 10, x name, m at level 100, k at level 200, only parsing).

Definition getCached : M (option nat) :=
  λ w, (w, Return (cachedConnection w)).

Definition setCached (c : option nat) : M unit :=
  λ w, ({| cachedConnection := c; connections := connections w;
           events := events w |}, Return tt).

Definition record (e : Event) (w : Process) : Process :=
  {| cachedConnection := cachedConnection w; connections := connections w;
     events := events w ++ [e] |}.

Definition closedIn (w : Process) (c : nat) : bool :=
  match connections w !! c with
  | Some connection => closed connection
  | None => true
  end.

Definition isClosed (c : nat) : M bool := λ w, (w, Return (closedIn w c)).

Definition readFile (env : Environment) (path : string) : M string :=
  λ w, (record (ReadFile path) w, fileContents env path).

Definition opened (opts : ConnectionOptions) : NatsConnection :=
  {| connectedWith := opts; closed := false; drained := false |}.

(** [connect(opts)] of the library: a new connection object, or the
    error of a server that cannot be reached. *)
Definition connect (env : Environment) (opts : ConnectionOptions) : M nat :=
  λ w, match reachable env opts with
       | Return _ =>
           ({| cachedConnection := cachedConnection w;
               connections := connections w ++ [opened opts];
               events := events w ++ [Connect opts] |},
            Return (length (connections w)))
       | Throw message => (record (Connect opts) w, Throw message)
       end.

Definition updateConnection (c : nat) (f : NatsConnection → NatsConnection)
    (w : Process) : Process :=
  {| cachedConnection := cachedConnection w;
     connections := alter f c (connections w);
     events := events w |}.

(** [drain()] of the library: in-flight work is flushed, after which the
    connection is closed. *)
Definition drain (c : nat) : M unit :=
  λ w, (record (Drain c)
          (updateConnection c
             (λ n, {| connectedWith := connectedWith n; closed := true; drained := true |})
             w),
        Return tt).

Definition close (c : nat) : M unit :=
  λ w, (record (Close c)
          (updateConnection c
             (λ n, {| connectedWith := connectedWith n; closed := true;
                      drained := drained n |})
             w),
        Return tt).

Definition withAuthenticator (opts : ConnectionOptions) (a : Authenticator)
    : ConnectionOptions :=
  {| servers := servers opts; name := name opts;
     maxReconnectAttempts := maxReconnectAttempts opts;
     reconnectTimeWait := reconnectTimeWait opts;
     authenticator := Some a |}.

(** The first generation of the helper: no credentials support. *)
Module ClientV1.

Definition establish (env : Environment) (config : CLIConfiguration)
    : M nat :=
  let opts :=
    {| servers := orElseStr (natsUrl config) "nats://localhost:4222";
       name := "loom-shuttle";
       maxReconnectAttempts := 10;
       reconnectTimeWait := 1000;
       authenticator := None |} in
  let* c := connect env opts in
  let* _ := setCached (Some c) in
  ret c.

Definition getNATSConnection (env : Environment)
    (config : CLIConfiguration) : M nat :=
  let* cached := getCached in
  match cached with
  | Some c =>
      let* isclosed := isClosed c in
      if negb isclosed then ret c else establish env config
  | None => establish env config
  end.

Definition closeNATSConnection : M unit :=
  let* cached := getCached in
  match cached with
  | Some c =>
      let* isclosed := isClosed c in
      if negb isclosed then
        let* _ := drain c in
        let* _ := close c in
        setCached None
      else ret tt
  | None => ret tt
  end.

End ClientV1.

(** The second generation: credentials read from a file. *)
Module ClientV2.

Definition establish (env : Environment) (config : CLIConfiguration)
    : M nat :=
  let opts :=
    {| servers := orElseStr (natsUrl config) "nats://localhost:4222";
       name := "loom-shuttle";
       maxReconnectAttempts := 10;
       reconnectTimeWait := 1000;
       authenticator := None |} in
  let* opts :=
    match natsCredentials config with
    | Some path =>
        if truthyStr path then
          tryCatch
            (let* credsContent := readFile env path in
             ret (withAuthenticator opts (credsAuthenticator credsContent)))
            (λ message,
               throw ("Failed to read NATS credentials file: " +:+ path
                      +:+ ": " +:+ message))
        else ret opts
    | None => ret opts
    end in
  let* c := connect env opts in
  let* _ := setCached (Some c) in
  ret c.

Definition getNATSConnection (env : Environment)
    (config : CLIConfiguration) : M nat :=
  let* cached := getCached in
  match cached with
  | Some c =>
      let* isclosed := isClosed c in
      if negb isclosed then ret c else establish env config
  | None => establish env config
  end.

Definition closeNATSConnection : M unit :=
  let* cached := getCached in
  match cached with
  | Some c =>
      let* isclosed := isClosed c in
      if negb isclosed then
        let* _ := drain c in
        let* _ := close c in
        setCached None
      else ret tt
  | None => ret tt
  end.

End ClientV2.

(** The cached connection when it exists and is not closed. *)
Definition liveConnection (w : Process) : option nat :=
  match cachedConnection w with
  | Some c => if closedIn w c then None else Some c
  | None => None
  end.

(** The paths read, in order. *)
Definition readsOf (evs : list Event) : list string :=
  omap (λ e, match e with ReadFile path => Some path | _ => None end) evs.

(** The options both generations start from. *)
Definition baseOptions (config : CLIConfiguration) : ConnectionOptions :=
  {| servers := orElseStr (natsUrl config) "nats://localhost:4222";
     name := "loom-shuttle";
     maxReconnectAttempts := 10;
     reconnectTimeWait := 1000;
     authenticator := None |}.

(** A client is the pair of exported functions; a run is a sequence of
    calls made by the commands, each outcome observed by the caller. *)
Record Client : Type := {
  acquire : Environment → CLIConfiguration → M nat;
  release : M unit;
}.

Definition clientV1 : Client :=
  {| acquire := ClientV1.getNATSConnection;
     release := ClientV1.closeNATSConnection |}.

Definition clientV2 : Client :=
  {| acquire := ClientV2.getNATSConnection;
     release := ClientV2.closeNATSConnection |}.

Inductive Call : Type :=
  | Acquire (config : CLIConfiguration)
  | Release.

Definition configOf (call : Call) : option CLIConfiguration :=
  match call with
  | Acquire config => Some config
  | Release => None
  end.

Inductive Observation : Type :=
  | Acquired (connection : nat)
  | Released
  | Raised (message : string).

Definition step (K : Client) (env : Environment) (call : Call)
    (w : Process) : Process * Observation :=
  match call with
  | Acquire config =>
      match acquire K env config w with
      | (w', Return c) => (w', Acquired c)
      | (w', Throw message) => (w', Raised message)
      end
  | Release =>
      match release K w with
      | (w', Return _) => (w', Released)
      | (w', Throw message) => (w', Raised message)
      end
  end.

Fixpoint run (K : Client) (env : Environment) (calls : list Call)
    (w : Process) : Process * list Observation :=
  match calls with
  | [] => (w, [])
  | call :: calls' =>
      let (w', o) := step K env call w in
      let (w'', os) := run K env calls' w' in
      (w'', o :: os)
  end.

(** The credential file path the configuration carries, when it is set
    to a non-empty string ([if (config.natsCredentials)]). *)
Definition credentialPath (config : CLIConfiguration) : option string :=
  match natsCredentials config with
  | Some path => if truthyStr path then Some path else None
  | None => None
  end.

Definition noCredentials (call : Call) : Prop :=
  match call with
  | Acquire config => credentialPath config = None
  | Release => True
  end.

(** *** Concrete inputs *)

Definition freshProcess : Process :=
  {| cachedConnection := None; connections := []; events := [] |}.

(** One file of credentials exists; every server accepts. *)
Definition sampleEnvironment : Environment :=
  {| fileContents path :=
       if String.eqb path "/etc/loom/user.creds" then Return "SECRET"
       else Throw ("ENOENT: no such file or directory, open '" +:+ path
                   +:+ "'");
     reachable _ := Return tt |}.

Definition plainConfiguration : CLIConfiguration :=
  {| natsUrl := None; projectId := Some "default"; natsCredentials := None;
     defaultBoundary := None; defaultPriority := Some 5%Z;
     outputFormat := Some "table"; apiUrl := None; apiToken := None |}.

Definition credentialedConfiguration : CLIConfiguration :=
  {| natsUrl := Some "nats://prod:4222"; projectId := Some "default";
     natsCredentials := Some "/etc/loom/user.creds";
     defaultBoundary := None; defaultPriority := Some 5%Z;
     outputFormat := Some "table"; apiUrl := None; apiToken := None |}.

Definition missingCredentialsConfiguration : CLIConfiguration :=
  {| natsUrl := Some "nats://prod:4222"; projectId := Some "default";
     natsCredentials := Some "/nowhere.creds";
     defaultBoundary := None; defaultPriority := Some 5%Z;
     outputFormat := Some "table"; apiUrl := None; apiToken := None |}.

(** A process whose cache holds an open connection. *)
Definition connectedProcess : Process :=
  {| cachedConnection := Some 0;
     connections := [opened (baseOptions plainConfiguration)];
     events := [Connect (baseOptions plainConfiguration)] |}.

(** ** Command actions

    An action either goes on with a value or ends the process
    ([process.exit(code)]) after printing lines with [error]. *)
Inductive Flow (A : Type) : Type :=
  | Proceed (a : A)
  | Exit (code : Z) (printed : list string).
Arguments Proceed {A} a.
Arguments Exit {A} code printed.

(** [try { body } catch (err) { error(`Error: ${err.message}`); process.exit(1) }] *)
Definition catchAndExit {A : Type} (body : Outcome A) : Flow A :=
  match body with
  | Return a => Proceed a
  | Throw message => Exit 1 ["Error: " +:+ message]
  end.

(** *** Characters and white space

    A string of the embedding is the sequence of bytes of the UTF-8
    encoding of the JavaScript string. [characters] reads it back as
    code points, each with the bytes that encode it; a byte that starts
    no well-formed sequence is read as U+FFFD, as a decoder does. *)
Definition byteOf (c : ascii) : N := N_of_ascii c.

Definition between (lo hi n : N) : bool := (lo <=? n)%N && (n <=? hi)%N.

Definition continuation (c : ascii) : bool := between 128 191 (byteOf c).

(** The payload bits of a byte. *)
Definition payload (c : ascii) (mask : N) : N := N.land (byteOf c) mask.

Record Character : Type := {
  codePoint : N;
  encoding : string;
}.

(** A byte read on its own: an ASCII character, or U+FFFD for a byte
    that belongs to no well-formed sequence. *)
Definition standalone (b : ascii) : Character :=
  {| codePoint := if (byteOf b <? 128)%N then byteOf b else 65533%N;
     encoding := String b EmptyString |}.

Fixpoint characters (s : string) : list Character :=
  match s with
  | EmptyString => []
  | String b0 s1 =>
      let single :=
        standalone b0 :: characters s1 in
      match s1 with
      | EmptyString => single
      | String b1 s2 =>
          if between 194 223 (byteOf b0) && continuation b1 then
            {| codePoint := (payload b0 31 * 64 + payload b1 63)%N;
               encoding := String b0 (String b1 EmptyString) |}
            :: characters s2
          else
            match s2 with
            | EmptyString => single
            | String b2 s3 =>
                let cp3 :=
                  (payload b0 15 * 4096 + payload b1 63 * 64
                   + payload b2 63)%N in
                if between 224 239 (byteOf b0) && continuation b1
                   && continuation b2
                   && (between 2048 55295 cp3 || between 57344 65535 cp3)
                then
                  {| codePoint := cp3;
                     encoding :=
                       String b0 (String b1 (String b2 EmptyString)) |}
                  :: characters s3
                else
                  match s3 with
                  | EmptyString => single
                  | String b3 s4 =>
                      let cp4 :=
                        (payload b0 7 * 262144 + payload b1 63 * 4096
                         + payload b2 63 * 64 + payload b3 63)%N in
                      if between 240 247 (byteOf b0) && continuation b1
                         && continuation b2 && continuation b3
                         && between 65536 1114111 cp4
                      then
                        {| codePoint := cp4;
                           encoding :=
                             String b0
                               (String b1
                                  (String b2 (String b3 EmptyString))) |}
                        :: characters s4
                      else single
                  end
            end
      end
  end.

(** The bytes of a sequence of characters. *)
Definition encode (l : list Character) : string :=
  foldr (λ c rest, encoding c +:+ rest) EmptyString l.

(** The code points [String.prototype.trim] removes: WhiteSpace (TAB,
    VT, FF, SP, NBSP, ZWNBSP U+FEFF and the space separators U+1680,
    U+2000 to U+200A, U+202F, U+205F, U+3000) and LineTerminator (LF,
    CR, U+2028, U+2029). *)
Definition isWhiteSpace (cp : N) : bool :=
  between 9 13 cp || (cp =? 32)%N || (cp =? 160)%N || (cp =? 5760)%N
  || between 8192 8202 cp || (cp =? 8232)%N || (cp =? 8233)%N
  || (cp =? 8239)%N || (cp =? 8287)%N || (cp =? 12288)%N
  || (cp =? 65279)%N.

Definition blank (c : Character) : bool := isWhiteSpace (codePoint c).

Fixpoint dropWhile {A : Type} (P : A → bool) (l : list A) : list A :=
  match l with
  | [] => []
  | x :: l' => if P x then dropWhile P l' else l
  end.

(** What is left of a sequence of characters once the white space at
    both ends is removed. *)
Definition kept (l : list Character) : list Character :=
  rev (dropWhile blank (rev (dropWhile blank l))).

(** [s.trim()] *)
Definition trim (s : string) : string := encode (kept (characters s)).

(** *** The response envelope of the API client *)

Record ResponseEnvelope (T : Type) : Type := {
  ok : bool;
  status : Z;
  data : option T;
  error : option string;
}.
Arguments ok {T} _.
Arguments status {T} _.
Arguments data {T} _.
Arguments error {T} _.

(** [work show <work-id>], up to the check of the response of
    [client.getWork(workId)]: [Proceed] is the action going on to print
    [response.data], which is not part of the embedding. *)
Definition workShowAction {T : Type} (workId : string)
    (response : ResponseEnvelope T) : Flow (option T) :=
  catchAndExit
    (if negb (ok response) then
       Throw (orElseStr (error response) ("HTTP " +:+ pretty (status response)))
     else Return (data response)).

(** [targets show <target>], up to the check of the response of
    [client.getTarget(target)], in the same way. *)
Definition targetsShowCommand {T : Type} (target : string)
    (response : ResponseEnvelope T) : Flow (option T) :=
  catchAndExit
    (if negb (ok response) then
       if (status response =? 404)%Z then
         Throw ("Target not found: " +:+ target)
       else
         Throw (orElseStr (error response)
                  ("HTTP " +:+ pretty (status response)))
     else Return (data response)).

(** [shutdown <agent-guid>], up to the check of the response of
    [client.shutdownAgent(agentGuid, graceful)], in the same way. *)
Definition shutdownCommand {T : Type} (agentGuid : string)
    (response : ResponseEnvelope T) : Flow (option T) :=
  catchAndExit
    (if negb (ok response) then
       Throw (orElseStr (error response) ("HTTP " +:+ pretty (status response)))
     else Return (data response)).

Definition notFound : ResponseEnvelope unit :=
  {| ok := false; status := 404; data := None; error := None |}.

Definition serverError : ResponseEnvelope unit :=
  {| ok := false; status := 500; data := None; error := None |}.

(** *** The submit command *)

(** Numbers as the command sees them: what [parseInt] returns. *)
Inductive number : Type :=
  | NaN
  | Num (z : Z).

Definition truthyNum (n : number) : bool :=
  match n with
  | NaN => false
  | Num z => negb (z =? 0)%Z
  end.

(** [a || b] on optional numbers, and [a || n] with a number. *)
Definition orElseNum (a b : option number) : option number :=
  match a with
  | Some n => if truthyNum n then a else b
  | None => b
  end.

Definition orNum (a : option number) (n : number) : number :=
  match a with
  | Some m => if truthyNum m then m else n
  | None => n
  end.

Module options.
Record t : Type := {
  boundary : option string;
  capability : option string;
  priority : option number;
  agentType : option string;
  deadline : option string;
  interactive : bool;
}.
End options.

Module globalOpts.
Record t : Type := {
  json : bool;
  config : option string;
  quiet : bool;
  project : option string;
}.
End globalOpts.

Record WorkDetails : Type := {
  description : string;
  boundary : string;
  capability : string;
  priority : number;
}.

(** The argument of [client.submitWork]. *)
Module request.
Record t : Type := {
  description : string;
  boundary : string;
  capability : string;
  priority : number;
  taskId : string;
  deadline : option string;
}.
End request.

Definition needsInteractive (description : option string) (o : options.t)
    : bool :=
  options.interactive o || negb (truthyOpt description)
  || negb (truthyOpt (options.boundary o))
  || negb (truthyOpt (options.capability o)).

(** [if (!value) { error(message); process.exit(1) }] *)
Definition required {A : Type} (value : option string) (message : string)
    (k : string → Flow A) : Flow A :=
  match value with
  | Some s => if truthyStr s then k s else Exit 1 [message]
  | None => Exit 1 [message]
  end.

Definition validAgentTypes : list string := ["copilot-cli"; "claude-code"].

(** The action of [submit] up to the call of [client.submitWork]:
    [prompted] is what [promptWorkSubmission] answers and [uuid] what
    [randomUUID()] returns. *)
Definition submitAction (descriptionArg : option string) (o : options.t)
    (g : globalOpts.t) (config : CLIConfiguration)
    (prompted : WorkDetails) (uuid : string) : Flow request.t :=
  let details : Flow WorkDetails :=
    if needsInteractive descriptionArg o && negb (globalOpts.json g) then
      Proceed prompted
    else
      required descriptionArg
        "Description is required (use --interactive for prompts)"
        (λ d,
      required (options.boundary o)
        "Boundary is required (use --boundary or --interactive)"
        (λ b,
      required (options.capability o)
        "Capability is required (use --capability or --interactive)"
        (λ c,
      Proceed
        {| description := d;
           boundary := b;
           capability := c;
           priority :=
             orNum (orElseNum (options.priority o)
                      (Num <$> defaultPriority config))
               (Num 5) |}))) in
  match details with
  | Exit code printed => Exit code printed
  | Proceed workDetails =>
      if negb (truthyStr (boundary workDetails))
         || (String.length (trim (boundary workDetails)) =? 0)%nat then
        Exit 1 ["Boundary must be a non-empty string"]
      else
        match options.agentType o with
        | Some a =>
            if truthyStr a && negb (bool_decide (a ∈ validAgentTypes)) then
              Exit 1 ["Invalid agent type: " +:+ a;
                      "Valid values: " +:+ String.concat ", " validAgentTypes]
            else
              Proceed
                {| request.description := description workDetails;
                   request.boundary := boundary workDetails;
                   request.capability := capability workDetails;
                   request.priority := priority workDetails;
                   request.taskId := uuid;
                   request.deadline := options.deadline o |}
        | None =>
            Proceed
              {| request.description := description workDetails;
                 request.boundary := boundary workDetails;
                 request.capability := capability workDetails;
                 request.priority := priority workDetails;
                 request.taskId := uuid;
                 request.deadline := options.deadline o |}
        end
  end.

Definition promptedDetails : WorkDetails :=
  {| description := "prompted"; boundary := "staging";
     capability := "typescript"; priority := Num 3 |}.

Definition plainGlobals : globalOpts.t :=
  {| globalOpts.json := false; globalOpts.config := None;
     globalOpts.quiet := false; globalOpts.project := None |}.

Definition submitOptionsWith (p : option number) : options.t :=
  {| options.boundary := Some "production";
     options.capability := Some "typescript";
     options.priority := p;
     options.agentType := None;
     options.deadline := None;
     options.interactive := false |}.

Definition configurationWithPriority (p : option Z) : CLIConfiguration :=
  {| natsUrl := Some "nats://localhost:4222"; projectId := Some "default";
     natsCredentials := None; defaultBoundary := None; defaultPriority := p;
     outputFormat := Some "table"; apiUrl := None; apiToken := None |}.

(** ** The configuration store *)

(** The values a flat JSON object of the configuration file holds. *)
Inductive JSON : Type :=
  | JString (s : string)
  | JNumber (z : Z)
  | JBoolean (b : bool)
  | JNull.

(** A file holds a JSON object or text that [JSON.parse] rejects with a
    syntax error. *)
Inductive FileContent : Type :=
  | ValidJSON (object : gmap string JSON)
  | InvalidJSON (syntaxError : string).

(** The home directory, [process.env] and the files. *)
Record Machine : Type := {
  homedir : string;
  processEnv : gmap string string;
  files : gmap string FileContent;
}.

(** [{...a, ...b}]: the properties of [b] on top of those of [a]. *)
Definition spread (a b : gmap string JSON) : gmap string JSON := b ∪ a.

(** The constant [DEFAULT_CLI_CONFIG] of the shared package. *)
Definition DEFAULT_CLI_CONFIG : gmap string JSON :=
  <["natsUrl" := JString "nats://localhost:4222"]>
    (<["defaultPriority" := JNumber 5]>
       (<["outputFormat" := JString "table"]> ∅)).

(** Modelled from the spec: the module [utils/config-file.ts]
    ([getDefaultConfigPath], [loadConfig], [saveConfig],
    [getConfigValue], [setConfigValue], [listConfig], [validateConfig])
    is missing from the sources; only its test file and the constant
    [DEFAULT_CLI_CONFIG] are there. The built-in defaults are that
    constant together with the project id [default] of the first
    end-to-end scenario. *)
Definition builtinDefaults : gmap string JSON :=
  <["projectId" := JString "default"]> DEFAULT_CLI_CONFIG.

(** Modelled from the spec: the default path is the file [config.json]
    of a dot-prefixed directory under the user's home. *)
Definition getDefaultConfigPath (m : Machine) : string :=
  homedir m +:+ "/.loom/config.json".

(** Modelled from the spec: the argument of [loadConfig] of the missing
    [utils/config-file.ts] is a file path or an options object
    [{configPath?, projectOverride?}]; no argument is [None]. *)
Inductive LoadSource : Type :=
  | Path (configPath : string)
  | Options (configPath : option string) (projectOverride : option string).

(** Modelled from the spec: the path [loadConfig] reads, the default
    path when none is given. *)
Definition resolvePath (m : Machine) (source : option LoadSource) : string :=
  match source with
  | Some (Path configPath) => configPath
  | Some (Options (Some configPath) _) => configPath
  | Some (Options None _) | None => getDefaultConfigPath m
  end.

(** Modelled from the spec: the [projectOverride] of the argument of
    [loadConfig], which only an options object carries. *)
Definition projectOverrideOf (source : option LoadSource) : option string :=
  match source with
  | Some (Options _ projectOverride) => projectOverride
  | Some (Path _) | None => None
  end.

(** Modelled from the spec: a missing file is read as the empty object,
    malformed JSON is a fatal error surfaced to the caller. *)
Definition readConfigFile (m : Machine) (path : string)
    : Outcome (gmap string JSON) :=
  match files m !! path with
  | None => Return ∅
  | Some (ValidJSON object) => Return object
  | Some (InvalidJSON syntaxError) => Throw syntaxError
  end.

(** Modelled from the spec: inside the missing [loadConfig], one
    recognised environment variable sets exactly one field. *)
Definition fromEnvironment (variable field : string) (m : Machine)
    (config : gmap string JSON) : gmap string JSON :=
  match processEnv m !! variable with
  | Some value => <[field := JString value]> config
  | None => config
  end.

(** Modelled from the spec: defaults, then the file, then the four
    environment variables, then [projectOverride] when it is not
    empty; each step overwrites only what it provides. *)
Definition loadConfig (source : option LoadSource) (m : Machine)
    : Outcome (gmap string JSON) :=
  match readConfigFile m (resolvePath m source) with
  | Throw message => Throw message
  | Return fileConfig =>
      let config := spread builtinDefaults fileConfig in
      let config := fromEnvironment "NATS_URL" "natsUrl" m config in
      let config := fromEnvironment "PROJECT_ID" "projectId" m config in
      let config := fromEnvironment "LOOM_API_URL" "apiUrl" m config in
      let config := fromEnvironment "LOOM_API_TOKEN" "apiToken" m config in
      let config :=
        match projectOverrideOf source with
        | Some project =>
            if truthyStr project then <["projectId" := JString project]> config
            else config
        | None => config
        end in
      Return config
  end.

(** Modelled from the spec: read the existing content (the empty object
    if the file is absent), shallow-merge [partial] on top, write the
    result back. *)
Definition saveConfig (partial : gmap string JSON) (path : option string)
    (m : Machine) : Machine * Outcome unit :=
  let configPath := default (getDefaultConfigPath m) path in
  match readConfigFile m configPath with
  | Throw message => (m, Throw message)
  | Return existing =>
      ({| homedir := homedir m;
          processEnv := processEnv m;
          files := <[configPath := ValidJSON (spread existing partial)]>
                     (files m) |},
       Return tt)
  end.

(** Modelled from the spec: [getConfigValue] of the missing module reads
    through the same resolution as [loadConfig]. *)
Definition getConfigValue (key : string) (path : option string)
    (m : Machine) : Outcome (option JSON) :=
  match loadConfig (Path <$> path) m with
  | Return config => Return (config !! key)
  | Throw message => Throw message
  end.

(** Modelled from the spec: [setConfigValue] of the missing module
    persists a single field via [saveConfig]. *)
Definition setConfigValue (key : string) (value : JSON)
    (path : option string) (m : Machine) : Machine * Outcome unit :=
  saveConfig {[key := value]} path m.

(** Modelled from the spec: [listConfig] of the missing module is the
    fully resolved configuration. *)
Definition listConfig (path : option string) (m : Machine)
    : Outcome (gmap string JSON) :=
  loadConfig (Path <$> path) m.

(** The four sources of a resolution, as partial records. *)
Definition overrideSource (source : option LoadSource) : gmap string JSON :=
  match projectOverrideOf source with
  | Some project =>
      if truthyStr project then {["projectId" := JString project]} else ∅
  | None => ∅
  end.

Definition environmentField (variable field : string) (m : Machine)
    : gmap string JSON :=
  match processEnv m !! variable with
  | Some value => {[field := JString value]}
  | None => ∅
  end.

Definition environmentSource (m : Machine) : gmap string JSON :=
  environmentField "NATS_URL" "natsUrl" m
  ∪ environmentField "PROJECT_ID" "projectId" m
  ∪ environmentField "LOOM_API_URL" "apiUrl" m
  ∪ environmentField "LOOM_API_TOKEN" "apiToken" m.

(** The value of the first source of the list that defines the field. *)
Fixpoint highestPrecedence (field : string)
    (sources : list (gmap string JSON)) : option JSON :=
  match sources with
  | [] => None
  | source :: lower =>
      match source !! field with
      | Some value => Some value
      | None => highestPrecedence field lower
      end
  end.

Definition loaded (field : string) (o : Outcome (gmap string JSON))
    : option JSON :=
  match o with
  | Return config => config !! field
  | Throw _ => None
  end.

(** The file source of a resolution: the object of the configuration
    file, empty when the file is missing. *)
Definition fileSource (m : Machine) (source : option LoadSource)
    : gmap string JSON :=
  match files m !! resolvePath m source with
  | Some (ValidJSON object) => object
  | Some (InvalidJSON _) | None => ∅
  end.

Definition wellFormed (m : Machine) (path : string) : Prop :=
  ∀ syntaxError, files m !! path ≠ Some (InvalidJSON syntaxError).

(** *** Validation *)

(** The messages the test file expects from the missing
    [validateConfig]. *)
Definition doubleQuote : string := String "034"%char EmptyString.

Definition schemeMessage : string := "natsUrl must start with nats://".
Definition priorityMessage : string :=
  "defaultPriority must be between 1 and 10".
Definition boundaryMessage : string :=
  "defaultBoundary must be a non-empty string".
Definition formatMessage : string :=
  "outputFormat must be either " +:+ doubleQuote +:+ "table" +:+ doubleQuote
  +:+ " or " +:+ doubleQuote +:+ "json" +:+ doubleQuote.

(** Modelled from the spec: [validateConfig] of the missing
    [utils/config-file.ts] checks four rules, each on its own, and
    pushes every violation on the list it returns; the messages are
    those the tests expect. *)
Definition validateConfig (config : CLIConfiguration) : list string :=
  let errors : list string := [] in
  let errors :=
    match natsUrl config with
    | Some url =>
        if negb (String.prefix "nats://" url) then errors ++ [schemeMessage]
        else errors
    | None => errors
    end in
  let errors :=
    match defaultPriority config with
    | Some p =>
        if (p <? 1)%Z || (10 <? p)%Z then errors ++ [priorityMessage]
        else errors
    | None => errors
    end in
  let errors :=
    match defaultBoundary config with
    | Some b =>
        if (String.length (trim b) =? 0)%nat then errors ++ [boundaryMessage]
        else errors
    | None => errors
    end in
  let errors :=
    match outputFormat config with
    | Some format =>
        if negb (String.eqb format "table" || String.eqb format "json")
        then errors ++ [formatMessage]
        else errors
    | None => errors
    end in
  errors.

(** The four rules as predicates of the candidate. *)
Definition violatesScheme (config : CLIConfiguration) : bool :=
  match natsUrl config with
  | Some url => negb (String.prefix "nats://" url)
  | None => false
  end.

Definition violatesPriority (config : CLIConfiguration) : bool :=
  match defaultPriority config with
  | Some p => negb ((1 <=? p)%Z && (p <=? 10)%Z)
  | None => false
  end.

Definition violatesBoundary (config : CLIConfiguration) : bool :=
  match defaultBoundary config with
  | Some b => bool_decide (trim b = EmptyString)
  | None => false
  end.

Definition violatesFormat (config : CLIConfiguration) : bool :=
  match outputFormat config with
  | Some format =>
      negb (bool_decide (format = "table") || bool_decide (format = "json"))
  | None => false
  end.

(** *** Concrete inputs *)

Definition bareMachine : Machine :=
  {| homedir := "/home/op"; processEnv := ∅; files := ∅ |}.

Definition machineWithEnvironment : Machine :=
  {| homedir := "/home/op";
     processEnv := {["NATS_URL" := "nats://env:4222"]};
     files := ∅ |}.

Definition machineWithFile : Machine :=
  {| homedir := "/home/op";
     processEnv := {["NATS_URL" := "nats://env:4222"]};
     files := {["/tmp/config.json" :=
                 ValidJSON
                   (<["natsUrl" := JString "nats://file:4222"]>
                      (<["projectId" := JString "file-project"]> ∅))]} |}.

Definition savedPartial : gmap string JSON :=
  <["natsUrl" := JString "nats://saved:4222"]>
    (<["defaultBoundary" := JString "staging"]> ∅).

(** ** Further notions for the connection helper *)

(** The three ways an acquisition can end, seen from the cache: the live
    cached connection is handed back and nothing changes; a connection
    is created, appended to the connection objects and cached; or the
    attempt fails and neither the cache nor the connection objects
    change. *)
Inductive Acquisition (w : Process) : Process → Outcome nat → Prop :=
  | Reused (c : nat) :
      liveConnection w = Some c → Acquisition w w (Return c)
  | Created (w' : Process) (opts : ConnectionOptions) :
      liveConnection w = None →
      cachedConnection w' = Some (length (connections w)) →
      connections w' = connections w ++ [opened opts] →
      Acquisition w w' (Return (length (connections w)))
  | Failed (w' : Process) (message : string) :
      liveConnection w = None →
      cachedConnection w' = cachedConnection w →
      connections w' = connections w →
      Acquisition w w' (Throw message).

(** The cache refers to an existing connection object, and every
    connection object that is still open is the cached one. *)
Definition tidy (w : Process) : Prop :=
  (∀ c, cachedConnection w = Some c → c < length (connections w)) ∧
  (∀ i n, connections w !! i = Some n → closed n = false →
          cachedConnection w = Some i).

(** A server that refuses every connection, with the credentials file
    of [sampleEnvironment]. *)
Definition unreachableEnvironment : Environment :=
  {| fileContents := fileContents sampleEnvironment;
     reachable _ := Throw "CONNECTION_REFUSED" |}.

(** ** Further commands

    As for [submit], an action is embedded up to the calls it makes to
    the API client and the way the process ends; the spinner and the
    lines printed on success are left out. *)

(** [a || b] on optional strings. *)
Definition orElseOpt (a b : option string) : option string :=
  if truthyOpt a then a else b.

(** [s.split(sep)] for a one-character separator: never empty, the
    empty string gives one empty token. *)
Fixpoint split (sep : ascii) (s : string) : list string :=
  match s with
  | EmptyString => [EmptyString]
  | String c s' =>
      if Ascii.eqb c sep then EmptyString :: split sep s'
      else
        match split sep s' with
        | token :: tokens => String c token :: tokens
        | [] => [String c EmptyString]
        end
  end.

(** [value.split(',').map((s) => s.trim())] *)
Definition commaSeparated (value : string) : list string :=
  map trim (split "," value).

Fixpoint occurrences (c : ascii) (s : string) : nat :=
  match s with
  | EmptyString => 0
  | String d s' => (if Ascii.eqb d c then 1 else 0) + occurrences c s'
  end.

(** [sent] is what [value.split(',').map((s) => s.trim())] gives: the
    pieces of [value] between its commas, each one trimmed. *)
Definition piecesOf (value : string) (sent : list string) : Prop :=
  ∃ pieces,
    String.concat "," pieces = value ∧
    Forall (λ piece, occurrences "," piece = 0) pieces ∧
    sent = map trim pieces.

(** The calls an action makes to the API client, in order. *)
Inductive ApiCall : Type :=
  | ListTargets (type capability : option string)
  | SpinUpTarget (targetId : option string)
  | DeleteTarget (target : string)
  | ShutdownAgent (agentGuid : string) (graceful : bool).

(** The message [property] of [undefined] cannot be read, as Node
    words it. *)
Definition cannotRead (property : string) : string :=
  "Cannot read properties of undefined (reading '" +:+ property +:+ "')".

(** *** spin-up *)

Module spinUpOptions.
Record t : Type := {
  target : option string;
  type : option string;
  capability : option string;
  boundary : option string;
}.
End spinUpOptions.

Module targetItem.
Record t : Type := {
  id : option string;
  name : option string;
}.
End targetItem.

(** The payload of [client.listTargets]. *)
Record TargetsPayload : Type := {
  targets : option (list targetItem.t);
}.

(** What the command reads of the payload of [client.spinUpTarget]. *)
Module spinUpResult.
Record t : Type := {
  success : option bool;
  status : option string;
  error : option string;
  message : option string;
}.
End spinUpResult.

Record SpinUpApi : Type := {
  listTargets : option string → option string → ResponseEnvelope TargetsPayload;
  spinUpTarget : option string → ResponseEnvelope spinUpResult.t;
}.

(** [result.success === true || result.status === 'in-progress' ||
    result.status === 'completed'] *)
Definition isSuccess (result : spinUpResult.t) : bool :=
  bool_decide (spinUpResult.success result = Some true)
  || bool_decide (spinUpResult.status result = Some "in-progress")
  || bool_decide (spinUpResult.status result = Some "completed").

(** The action of [spin-up]: the calls made and the ending; [Proceed
    result] is the result that is printed, as JSON or as the success
    lines. *)
Definition spinUpAction (o : spinUpOptions.t) (g : globalOpts.t)
    (api : SpinUpApi) : list ApiCall * Flow spinUpResult.t :=
  if negb (truthyOpt (spinUpOptions.target o))
     && negb (truthyOpt (spinUpOptions.type o))
     && negb (truthyOpt (spinUpOptions.capability o))
     && negb (truthyOpt (spinUpOptions.boundary o)) then
    ([], Exit 1 ["Must provide either --target or at least one filter (--type, --capability, --boundary)"])
  else
    let selection : list ApiCall * Flow (option string) :=
      if truthyOpt (spinUpOptions.target o) then
        ([], Proceed (spinUpOptions.target o))
      else
        let listResponse :=
          listTargets api (spinUpOptions.type o) (spinUpOptions.capability o) in
        ([ListTargets (spinUpOptions.type o) (spinUpOptions.capability o)],
         if negb (ok listResponse) then
           Exit 1 ["Error: " +:+
                   orElseStr (error listResponse)
                     ("HTTP " +:+ pretty (status listResponse))]
         else
           match default [] (data listResponse ≫= targets) with
           | [] => Exit 1 ["No matching targets found"]
           | first :: _ =>
               Proceed (orElseOpt (targetItem.id first) (targetItem.name first))
           end) in
    match selection with
    | (calls, Exit code printed) => (calls, Exit code printed)
    | (calls, Proceed targetId) =>
        let response := spinUpTarget api targetId in
        (calls ++ [SpinUpTarget targetId],
         if negb (ok response) then
           Exit 1 ["Error: " +:+
                   orElseStr (error response)
                     ("HTTP " +:+ pretty (status response))]
         else
           match data response with
           | None => Exit 1 ["Error: " +:+ cannotRead "success"]
           | Some result =>
               if globalOpts.json g then Proceed result
               else if isSuccess result then Proceed result
               else
                 Exit 1 ["Spin-up failed: " +:+
                         orElseStr
                           (orElseOpt (spinUpResult.error result)
                              (spinUpResult.message result))
                           "Unknown error"]
           end)
    end.

(** *** targets add, targets update *)

Module addOptions.
Record t : Type := {
  name : string;
  type : string;
  mechanism : string;
  host : option string;
  user : option string;
  command : option string;
  repo : option string;
  workflow : option string;
  url : option string;
  capabilities : option string;
  boundaries : option string;
  description : option string;
}.
End addOptions.

(** The argument of [client.createTarget]; [config] is the object
    [mechanismConfig], its properties in the order they are written,
    [None] for a property set to [undefined]. *)
Module createTarget.
Record t : Type := {
  name : string;
  agentType : string;
  capabilities : list string;
  mechanism : string;
  config : list (string * option string);
  boundaries : option (list string);
  description : option string;
}.
End createTarget.

(** [object[key]] on such an object; [undefined] is [None]. *)
Fixpoint property (key : string) (object : list (string * option string))
    : option string :=
  match object with
  | [] => None
  | (k, v) :: rest =>
      match property key rest with
      | Some later => Some later
      | None => if String.eqb k key then v else None
      end
  end.

Definition targetsAddRequest (o : addOptions.t) : Flow createTarget.t :=
  let mechanismConfig : list (string * option string) :=
    [("mechanism", Some (addOptions.mechanism o))] in
  let built : Flow (list (string * option string)) :=
    if String.eqb (addOptions.mechanism o) "ssh" then
      if negb (truthyOpt (addOptions.host o)) then
        Exit 1 ["--host is required for ssh mechanism"]
      else
        Proceed (mechanismConfig ++
                 [("host", addOptions.host o);
                  ("user", Some (orElseStr (addOptions.user o) "root"));
                  ("command", addOptions.command o)])
    else if String.eqb (addOptions.mechanism o) "github-actions" then
      if negb (truthyOpt (addOptions.repo o))
         || negb (truthyOpt (addOptions.workflow o)) then
        Exit 1 ["--repo and --workflow are required for github-actions mechanism"]
      else
        Proceed (mechanismConfig ++
                 [("repo", addOptions.repo o);
                  ("workflowFile", addOptions.workflow o)])
    else if String.eqb (addOptions.mechanism o) "local" then
      if negb (truthyOpt (addOptions.command o)) then
        Exit 1 ["--command is required for local mechanism"]
      else
        Proceed (mechanismConfig ++ [("command", addOptions.command o)])
    else if String.eqb (addOptions.mechanism o) "webhook" then
      if negb (truthyOpt (addOptions.url o)) then
        Exit 1 ["--url is required for webhook mechanism"]
      else
        Proceed (mechanismConfig ++ [("url", addOptions.url o)])
    else Proceed mechanismConfig in
  match built with
  | Exit code printed => Exit code printed
  | Proceed mechanismConfig =>
      Proceed
        {| createTarget.name := addOptions.name o;
           createTarget.agentType := addOptions.type o;
           createTarget.capabilities :=
             match addOptions.capabilities o with
             | Some value => commaSeparated value
             | None => []
             end;
           createTarget.mechanism := addOptions.mechanism o;
           createTarget.config := mechanismConfig;
           createTarget.boundaries :=
             commaSeparated <$> addOptions.boundaries o;
           createTarget.description := addOptions.description o |}
  end.

Module updateOptions.
Record t : Type := {
  capabilities : option string;
  boundaries : option string;
  description : option string;
}.
End updateOptions.

(** The object [updates]: a property is [None] when it was not set. *)
Module targetUpdates.
Record t : Type := {
  capabilities : option (list string);
  boundaries : option (list string);
  description : option string;
}.
End targetUpdates.



(** *** targets remove, shutdown *)

(** A command of the commander tree, as an action receives it: the
    values of the options declared on the command itself
    ([command.opts()]) and the command it was added to
    ([command.parent]). *)
Module Command.
Inductive t : Type :=
  | top (name : string) (opts : gmap string JSON)
  | sub (name : string) (opts : gmap string JSON) (parent : t).

Definition name (command : t) : string :=
  match command with
  | top name _ | sub name _ _ => name
  end.

Definition opts (command : t) : gmap string JSON :=
  match command with
  | top _ opts | sub _ opts _ => opts
  end.

Definition parent (command : t) : option t :=
  match command with
  | top _ _ => None
  | sub _ _ parent => Some parent
  end.
End Command.








Module shutdownOptions.
Record t : Type := {
  graceful : bool;
  force : bool;
  gracePeriod : string;
  yes : bool;
}.
End shutdownOptions.

Module shutdownResult.
Record t : Type := {
  success : option bool;
  message : option string;
}.
End shutdownResult.


(** *** projects, over NATS *)

(** The action of [projects] up to the statistics that are printed:
    [reply subject payload timeout] is the decoded and parsed answer to
    [nc.request], of a type [GlobalStats] left open here, or the error
    of a request that times out or of an answer that is not JSON. *)
Definition projectsAction {GlobalStats : Type} (K : Client)
    (env : Environment) (reply : string → string → Z → Outcome GlobalStats)
    (config : CLIConfiguration) (w : Process) : Process * Flow GlobalStats :=
  match acquire K env config w with
  | (w1, Throw message) => (w1, Exit 1 ["Error: " +:+ message])
  | (w1, Return nc) =>
      match reply "coord.global.stats" "{}" 5000%Z with
      | Throw message => (w1, Exit 1 ["Error: " +:+ message])
      | Return stats =>
          match release K w1 with
          | (w2, Throw message) => (w2, Exit 1 ["Error: " +:+ message])
          | (w2, Return _) => (w2, Proceed stats)
          end
      end
  end.

(** *** Concrete inputs of the further commands *)


(** U+00A0, the no-break space, as its two bytes. *)
Definition nbsp : string := String "194" (String "160" EmptyString).

(** Lists padded with a space, a tab and no-break spaces. *)
Definition paddedOptions : addOptions.t :=
  {| addOptions.name := "runner"; addOptions.type := "claude-code";
     addOptions.mechanism := "local"; addOptions.host := None;
     addOptions.user := None; addOptions.command := Some "run-agent";
     addOptions.repo := None; addOptions.workflow := None;
     addOptions.url := None;
     addOptions.capabilities :=
       Some ("typescript," +:+ nbsp +:+ "python" +:+ nbsp +:+ ", go");
     addOptions.boundaries :=
       Some (String "009" EmptyString +:+ "staging," +:+ nbsp);
     addOptions.description := None |}.




Definition jsonGlobals : globalOpts.t :=
  {| globalOpts.json := true; globalOpts.config := None;
     globalOpts.quiet := false; globalOpts.project := None |}.

(** An API whose list answers two targets and whose spin-up reports a
    failure in an ok response. *)
Definition sampleSpinUpApi : SpinUpApi :=
  {| listTargets _ _ :=
       {| ok := true; status := 200;
          data := Some {| targets :=
                     Some [{| targetItem.id := None;
                              targetItem.name := Some "build-box" |};
                           {| targetItem.id := Some "t-2";
                              targetItem.name := Some "spare" |}] |};
          error := None |};
     spinUpTarget _ :=
       {| ok := true; status := 200;
          data := Some {| spinUpResult.success := Some false;
                          spinUpResult.status := Some "failed";
                          spinUpResult.error := None;
                          spinUpResult.message := Some "host unreachable" |};
          error := None |} |}.

Definition filterOptions (boundary : option string) : spinUpOptions.t :=
  {| spinUpOptions.target := None;
     spinUpOptions.type := Some "claude-code";
     spinUpOptions.capability := None;
     spinUpOptions.boundary := boundary |}.

Definition targetOptions : spinUpOptions.t :=
  {| spinUpOptions.target := Some "build-box";
     spinUpOptions.type := None;
     spinUpOptions.capability := None;
     spinUpOptions.boundary := None |}.




Definition interactiveOptions : options.t :=
  {| options.boundary := None;
     options.capability := None;
     options.priority := None;
     options.agentType := Some "copilot-cli";
     options.deadline := None;
     options.interactive := true |}.

Definition blankDetails : WorkDetails :=
  {| description := "prompted"; boundary := " " +:+ nbsp +:+ " ";
     capability := "typescript"; priority := Num 3 |}.

(** * Properties *)

(** ** Strings *)

Lemma list_ascii_of_string_app (s t : string) :
  list_ascii_of_string (s +:+ t) =
  list_ascii_of_string s ++ list_ascii_of_string t.
Proof. induction s as [|c s IH]; simpl; [done | by rewrite IH]. Qed.

Lemma list_ascii_of_string_inj (s t : string) :
  list_ascii_of_string s = list_ascii_of_string t → s = t.
Proof.
  intros H. rewrite <- (string_of_list_ascii_of_string s),
    <- (string_of_list_ascii_of_string t). by rewrite H.
Qed.

(** Appending the same suffix is injective. *)
Lemma append_inv_tail (s1 s2 t : string) : s1 +:+ t = s2 +:+ t → s1 = s2.
Proof.
  intros H. apply list_ascii_of_string_inj.
  apply (f_equal list_ascii_of_string) in H.
  rewrite !list_ascii_of_string_app in H.
  by apply app_inv_tail in H.
Qed.

(** Two dot-free prefixes followed by a dot and anything are equal as
    soon as the whole strings are. *)
Lemma dotFree_prefix_inj (p1 p2 r1 r2 : string) :
  dotFree p1 = true → dotFree p2 = true →
  p1 +:+ "." +:+ r1 = p2 +:+ "." +:+ r2 → p1 = p2.
Proof.
  revert p2. induction p1 as [|c p1 IH]; intros [|d p2]; simpl; try done.
  - intros _ Hd H. injection H as Hc _. subst d.
    by rewrite Ascii.eqb_refl in Hd.
  - intros Hc _ H. injection H as Hc' _. subst c.
    by rewrite Ascii.eqb_refl in Hc.
  - intros [_ H1]%andb_prop [_ H2]%andb_prop H.
    injection H as -> H. f_equal. by apply IH.
Qed.

(** ** Subject builders *)

Lemma invoke_remainder (p : string) (m : Method) :
  invoke p m = "loom." +:+ p +:+ "." +:+ remainder m.
Proof. by destruct m. Qed.

Lemma invoke_tokens (p : string) (m : Method) :
  invoke p m =
  String.concat "."
    (["loom"; p; category m] ++ option_list (operation m)
       ++ option_list (entityId m)).
Proof. by destruct m. Qed.

(** Cancel the root and bring a subject equation to reversed character
    lists, where the fixed suffixes are compared first. *)
Ltac subjects_differ H :=
  apply (inj (String.app "loom.")) in H;
  apply (f_equal list_ascii_of_string) in H;
  rewrite !list_ascii_of_string_app in H;
  apply (f_equal (@rev ascii)) in H;
  rewrite !rev_app_distr in H; simpl in H;
  discriminate H.

Lemma same_operation_distinct (p1 p2 : string) (m1 m2 : Method) :
  operation m1 = operation m2 → entityId m1 = entityId m2 →
  p1 ≠ p2 ∨ category m1 ≠ category m2 →
  invoke p1 m1 ≠ invoke p2 m2.
Proof.
  intros Hop Hid Hne H.
  destruct m1, m2; simpl in Hop, Hid; try discriminate;
    simpl in Hne; unfold invoke in H;
    try (injection Hid as ->);
    try (destruct Hne as [Hne|Hne]; [|done];
         apply Hne; apply (inj (String.app "loom.")) in H;
         by apply append_inv_tail in H);
    try subjects_differ H.
Qed.

Lemma same_project_distinct (p : string) (m1 m2 : Method) :
  category m1 ≠ category m2 → invoke p m1 ≠ invoke p m2.
Proof.
  intros Hne H. rewrite !invoke_remainder in H.
  apply (inj (String.app "loom.")) in H.
  apply (inj (String.app p)) in H.
  apply (inj (String.app ".")) in H.
  destruct m1, m2; simpl in Hne; try done; simpl in H; discriminate H.
Qed.

Lemma dotFree_projects_distinct (p1 p2 : string) (m1 m2 : Method) :
  dotFree p1 = true → dotFree p2 = true → p1 ≠ p2 →
  invoke p1 m1 ≠ invoke p2 m2.
Proof.
  intros H1 H2 Hne H. rewrite !invoke_remainder in H.
  apply (inj (String.app "loom.")) in H.
  by apply dotFree_prefix_inj in H.
Qed.

(** C4, as stated, fails: the subject of [stats] has no operation token,
    so it is not of the shape root.<project>.<category>.<operation>[.<id>]
    for any category, operation and optional id. *)
Lemma stats_not_in_hierarchy : ¬ hierarchy "p" (invoke "p" Stats).
Proof.
  intros (cat & op & id & Hcat & H).
  simpl in Hcat.
  destruct Hcat as [<-|[<-|[<-|[<-|[<-|[]]]]]];
    destruct id; simpl in H; discriminate H.
Qed.

(** C4 (amended): every method returns the dot-joined tokens root
    [loom], project id, a category among work, agents, targets, spinup
    and stats, and then: an operation token (followed by the work item id
    for [workStatus]) for eighteen of the methods; the agent GUID alone,
    with no operation token, for [agentDetails]; nothing at all for
    [stats]. *)
Theorem subject_shape (p : string) (m : Method) :
  In (category m) categories ∧
  match m with
  | Stats => invoke p m = String.concat "." ["loom"; p; "stats"]
  | AgentDetails agentGuid =>
      invoke p m = String.concat "." ["loom"; p; "agents"; agentGuid]
  | WorkStatus workItemId =>
      invoke p m = String.concat "." ["loom"; p; "work"; "status"; workItemId]
  | _ =>
      ∃ op, In op operations ∧
        invoke p m = String.concat "." ["loom"; p; category m; op]
  end.
Proof.
  split; [destruct m; simpl; tauto|].
  destruct m; try reflexivity;
    (eexists; split; [|reflexivity]; simpl; tauto).
Qed.

(** C5, as stated, fails: two invocations that differ in project id and
    in category produce the same subject when a project id contains a
    dot. *)
Lemma subjects_collide :
  ¬ (∀ (p1 p2 : string) (m1 m2 : Method),
       p1 ≠ p2 ∨ category m1 ≠ category m2 → invoke p1 m1 ≠ invoke p2 m2).
Proof.
  intros H.
  apply (H "x.agents" "x" Stats (AgentDetails "stats")); [|reflexivity].
  left. discriminate.
Qed.

(** C5 (amended): the builders are deterministic; two invocations with
    the same operation and id that differ in project id or in category
    give distinct subjects; so do two invocations on the same project id
    whose categories differ, and any two invocations whose project ids
    differ and contain no dot. *)
Theorem subjects_deterministic_and_distinct
    (p1 p2 : string) (m1 m2 : Method) :
  (p1 = p2 → m1 = m2 → invoke p1 m1 = invoke p2 m2) ∧
  (operation m1 = operation m2 → entityId m1 = entityId m2 →
   p1 ≠ p2 ∨ category m1 ≠ category m2 → invoke p1 m1 ≠ invoke p2 m2) ∧
  (p1 = p2 → category m1 ≠ category m2 → invoke p1 m1 ≠ invoke p2 m2) ∧
  (dotFree p1 = true → dotFree p2 = true → p1 ≠ p2 →
   invoke p1 m1 ≠ invoke p2 m2).
Proof.
  split; [by intros -> ->|].
  split; [apply same_operation_distinct|].
  split; [intros ->; apply same_project_distinct|].
  apply dotFree_projects_distinct.
Qed.

Lemma subjects_deterministic_and_distinct_witness :
  invoke "alpha" (WorkStatus "w1") = invoke "alpha" (WorkStatus "w1") ∧
  invoke "alpha" WorkList ≠ invoke "beta" AgentsList ∧
  invoke "alpha" WorkGet ≠ invoke "alpha" (AgentDetails "get") ∧
  invoke "alpha" (WorkStatus "w1") ≠ invoke "beta" Stats.
Proof.
  split; [|split; [|split]].
  - destruct (subjects_deterministic_and_distinct
                "alpha" "alpha" (WorkStatus "w1") (WorkStatus "w1"))
      as (H & _).
    apply H; reflexivity.
  - destruct (subjects_deterministic_and_distinct
                "alpha" "beta" WorkList AgentsList) as (_ & H & _).
    apply H; [reflexivity | reflexivity | left; discriminate].
  - destruct (subjects_deterministic_and_distinct
                "alpha" "alpha" WorkGet (AgentDetails "get"))
      as (_ & _ & H & _).
    apply H; [reflexivity | discriminate].
  - destruct (subjects_deterministic_and_distinct
                "alpha" "beta" (WorkStatus "w1") Stats) as (_ & _ & _ & H).
    apply H; [reflexivity | reflexivity | discriminate].
Defined.

(** ** The connection cache *)

Section ConnectionCache.

Variable env : Environment.

Lemma liveConnection_Some (w : Process) (c : nat) :
  liveConnection w = Some c ↔
  cachedConnection w = Some c ∧ closedIn w c = false.
Proof.
  unfold liveConnection. destruct (cachedConnection w) as [c'|].
  - destruct (closedIn w c') eqn:E; split.
    + discriminate.
    + intros [[= ->] ?]. congruence.
    + by intros [= ->].
    + by intros [[= ->] _].
  - split; [discriminate | by intros [? _]].
Qed.

Lemma V2_hit (config : CLIConfiguration) (w : Process) (c : nat) :
  liveConnection w = Some c →
  ClientV2.getNATSConnection env config w = (w, Return c).
Proof.
  intros [Hc Hopen]%liveConnection_Some.
  unfold ClientV2.getNATSConnection, bind, getCached, isClosed.
  by rewrite Hc, Hopen.
Qed.

Lemma V2_miss (config : CLIConfiguration) (w : Process) :
  liveConnection w = None →
  ClientV2.getNATSConnection env config w = ClientV2.establish env config w.
Proof.
  unfold liveConnection, ClientV2.getNATSConnection, bind, getCached, isClosed.
  destruct (cachedConnection w) as [c|]; [|done].
  by destruct (closedIn w c).
Qed.

Lemma V1_hit (config : CLIConfiguration) (w : Process) (c : nat) :
  liveConnection w = Some c →
  ClientV1.getNATSConnection env config w = (w, Return c).
Proof.
  intros [Hc Hopen]%liveConnection_Some.
  unfold ClientV1.getNATSConnection, bind, getCached, isClosed.
  by rewrite Hc, Hopen.
Qed.

Lemma V1_miss (config : CLIConfiguration) (w : Process) :
  liveConnection w = None →
  ClientV1.getNATSConnection env config w = ClientV1.establish env config w.
Proof.
  unfold liveConnection, ClientV1.getNATSConnection, bind, getCached, isClosed.
  destruct (cachedConnection w) as [c|]; [|done].
  by destruct (closedIn w c).
Qed.

(** Connecting with given options and storing the result, as the last
    three statements of [getNATSConnection] do. *)
Lemma connect_and_store (opts : ConnectionOptions) (w : Process) :
  (let* c := connect env opts in let* _ := setCached (Some c) in ret c) w =
  match reachable env opts with
  | Return _ =>
      ({| cachedConnection := Some (length (connections w));
          connections := connections w ++ [opened opts];
          events := events w ++ [Connect opts] |},
       Return (length (connections w)))
  | Throw message => (record (Connect opts) w, Throw message)
  end.
Proof. unfold bind, connect. by destruct (reachable env opts). Qed.

(** What [establish] does, by cases on the credentials. *)
Lemma V2_establish_cases (config : CLIConfiguration) (w : Process) :
  ClientV2.establish env config w =
  match natsCredentials config with
  | Some path =>
      if truthyStr path then
        match fileContents env path with
        | Return credsContent =>
            (let* c := connect env
                         (withAuthenticator (baseOptions config)
                            (credsAuthenticator credsContent)) in
             let* _ := setCached (Some c) in ret c)
              (record (ReadFile path) w)
        | Throw message =>
            (record (ReadFile path) w,
             Throw ("Failed to read NATS credentials file: " +:+ path
                    +:+ ": " +:+ message))
        end
      else
        (let* c := connect env (baseOptions config) in
         let* _ := setCached (Some c) in ret c) w
  | None =>
      (let* c := connect env (baseOptions config) in
       let* _ := setCached (Some c) in ret c) w
  end.
Proof.
  unfold ClientV2.establish, baseOptions.
  destruct (natsCredentials config) as [path|]; [|done].
  destruct (truthyStr path); [|done].
  unfold bind at 1. unfold tryCatch, bind at 1, readFile.
  by destruct (fileContents env path).
Qed.

Lemma V1_establish_cases (config : CLIConfiguration) (w : Process) :
  ClientV1.establish env config w =
  (let* c := connect env (baseOptions config) in
   let* _ := setCached (Some c) in ret c) w.
Proof. done. Qed.

End ConnectionCache.

Lemma V2_establish_returns (env : Environment) (config : CLIConfiguration)
    (w w' : Process) (c : nat) :
  ClientV2.establish env config w = (w', Return c) →
  c = length (connections w) ∧
  cachedConnection w' = Some c ∧
  ∃ opts, connections w' = connections w ++ [opened opts] ∧
          last (events w') = Some (Connect opts).
Proof.
  rewrite V2_establish_cases.
  destruct (natsCredentials config) as [path|];
    [destruct (truthyStr path);
       [destruct (fileContents env path) as [content|]; [|discriminate]|]|];
    rewrite connect_and_store;
    (destruct (reachable env _); [|discriminate]);
    intros [= <- <-]; simpl; (split; [done|]); (split; [done|]);
    eexists; (split; [done|]); by rewrite last_snoc.
Qed.

Lemma V2_establish_throws (env : Environment) (config : CLIConfiguration)
    (w w' : Process) (message : string) :
  ClientV2.establish env config w = (w', Throw message) →
  cachedConnection w' = cachedConnection w ∧
  connections w' = connections w.
Proof.
  rewrite V2_establish_cases.
  destruct (natsCredentials config) as [path|];
    [destruct (truthyStr path);
       [destruct (fileContents env path) as [content|];
          [|by intros [= <- _]]|]|];
    rewrite connect_and_store;
    (destruct (reachable env _); [discriminate|]);
    by intros [= <- _].
Qed.

Lemma live_after_append (w w' : Process) (opts : ConnectionOptions) :
  cachedConnection w' = Some (length (connections w)) →
  connections w' = connections w ++ [opened opts] →
  liveConnection w' = Some (length (connections w)).
Proof.
  intros Hc Hl. unfold liveConnection, closedIn. rewrite Hc, Hl.
  by rewrite lookup_app_r, Nat.sub_diag by lia.
Qed.

Lemma V2_close_live (w : Process) (c : nat) :
  liveConnection w = Some c →
  ClientV2.closeNATSConnection w =
  ({| cachedConnection := None;
      connections :=
        alter (λ n, {| connectedWith := connectedWith n; closed := true;
                       drained := drained n |}) c
          (alter (λ n, {| connectedWith := connectedWith n; closed := true;
                          drained := true |}) c (connections w));
      events := events w ++ [Drain c; Close c] |}, Return tt).
Proof.
  intros [Hc Hopen]%liveConnection_Some.
  unfold ClientV2.closeNATSConnection, bind, getCached, isClosed.
  rewrite Hc, Hopen. simpl.
  unfold setCached, record, updateConnection. simpl.
  by rewrite <- app_assoc.
Qed.

Lemma V2_close_idle (w : Process) :
  liveConnection w = None → ClientV2.closeNATSConnection w = (w, Return tt).
Proof.
  unfold liveConnection, ClientV2.closeNATSConnection, bind, getCached, isClosed.
  destruct (cachedConnection w) as [c|]; [|done].
  by destruct (closedIn w c).
Qed.

Lemma closedIn_false (w : Process) (c : nat) :
  closedIn w c = false →
  ∃ n, connections w !! c = Some n ∧ closed n = false.
Proof.
  unfold closedIn. destruct (connections w !! c) as [n|]; [eauto | done].
Qed.

(** After [closeNATSConnection], whatever the state before, no live
    connection is cached and no connection object was added. *)
Lemma V2_close_leaves_no_live (w : Process) :
  liveConnection (ClientV2.closeNATSConnection w).1 = None ∧
  length (connections (ClientV2.closeNATSConnection w).1) =
  length (connections w).
Proof.
  destruct (liveConnection w) as [c|] eqn:E.
  - rewrite (V2_close_live w c E). simpl. split; [done|].
    by rewrite !length_alter.
  - by rewrite (V2_close_idle w E).
Qed.

(** C6: while the cached connection exists and is not closed,
    [getNATSConnection] returns it and changes nothing (no connection is
    created); otherwise a connection it returns is a newly created one,
    open and stored in the cache, and it does return one when the
    credentials (if configured) are readable and the server is
    reachable; [closeNATSConnection] on a live cached connection drains
    it, then closes it, and resets the cache to null; after
    [closeNATSConnection] an acquisition creates a new connection. *)
Theorem connection_cache_state_machine
    (env : Environment) (config : CLIConfiguration) (w : Process) :
  (∀ c, liveConnection w = Some c →
        ClientV2.getNATSConnection env config w = (w, Return c)) ∧
  (liveConnection w = None →
   (∀ w' c, ClientV2.getNATSConnection env config w = (w', Return c) →
      connections w !! c = None ∧
      cachedConnection w' = Some c ∧
      liveConnection w' = Some c ∧
      ∃ opts, connections w' = connections w ++ [opened opts] ∧
              last (events w') = Some (Connect opts)) ∧
   ((∀ path, natsCredentials config = Some path →
             ∃ content, fileContents env path = Return content) →
    (∀ opts, reachable env opts = Return tt) →
    ∃ w', ClientV2.getNATSConnection env config w =
          (w', Return (length (connections w))))) ∧
  (∀ c, liveConnection w = Some c →
     ∃ w', ClientV2.closeNATSConnection w = (w', Return tt) ∧
           cachedConnection w' = None ∧
           events w' = events w ++ [Drain c; Close c] ∧
           ∃ n, connections w' !! c = Some n ∧
                closed n = true ∧ drained n = true) ∧
  (∀ w1 w2 c', ClientV2.closeNATSConnection w = (w1, Return tt) →
     ClientV2.getNATSConnection env config w1 = (w2, Return c') →
     connections w !! c' = None ∧ cachedConnection w2 = Some c' ∧
     length (connections w2) = S (length (connections w))).
Proof.
  split; [intros c; apply V2_hit|].
  split; [intros Hmiss; split|split].
  - intros w' c. rewrite (V2_miss _ _ _ Hmiss).
    intros (-> & Hc & opts & Hl & He)%V2_establish_returns.
    split; [by apply lookup_ge_None_2|]. split; [done|].
    split; [by eapply live_after_append|]. eauto.
  - intros Hread Hreach. rewrite (V2_miss _ _ _ Hmiss), V2_establish_cases.
    destruct (natsCredentials config) as [path|];
      [destruct (truthyStr path);
         [destruct (Hread path eq_refl) as [content ->]|]|];
      rewrite connect_and_store, Hreach; eauto.
  - intros c Hlive. rewrite (V2_close_live w c Hlive).
    eexists; split; [done|]. simpl. split; [done|]. split; [done|].
    apply liveConnection_Some in Hlive as [_ (n & Hn & _)%closedIn_false].
    rewrite !list_lookup_alter, Hn. simpl.
    destruct (decide (c = c)); [|done]. simpl. eauto.
  - intros w1 w2 c' Hclose Hget.
    destruct (V2_close_leaves_no_live w) as [Hnone Hlen].
    rewrite Hclose in Hnone, Hlen. simpl in Hnone, Hlen.
    rewrite (V2_miss _ _ _ Hnone) in Hget.
    apply V2_establish_returns in Hget as (-> & Hc & opts & Hl & _).
    split; [apply lookup_ge_None_2; lia|]. split; [done|].
    rewrite Hl, length_app. simpl. lia.
Qed.

Lemma connection_cache_state_machine_witness :
  ClientV2.getNATSConnection sampleEnvironment plainConfiguration
    connectedProcess = (connectedProcess, Return 0) ∧
  (∃ w', ClientV2.getNATSConnection sampleEnvironment
           credentialedConfiguration freshProcess = (w', Return 0) ∧
         cachedConnection w' = Some 0 ∧ liveConnection w' = Some 0) ∧
  (∃ w', ClientV2.closeNATSConnection connectedProcess = (w', Return tt) ∧
         cachedConnection w' = None ∧
         events w' = events connectedProcess ++ [Drain 0; Close 0] ∧
         ∃ n, connections w' !! 0 = Some n ∧
              closed n = true ∧ drained n = true) ∧
  (∃ w1 w2, ClientV2.closeNATSConnection connectedProcess =
            (w1, Return tt) ∧
            ClientV2.getNATSConnection sampleEnvironment plainConfiguration
              w1 = (w2, Return 1) ∧
            cachedConnection w2 = Some 1 ∧ length (connections w2) = 2).
Proof.
  split; [|split; [|split]].
  - destruct (connection_cache_state_machine sampleEnvironment
                plainConfiguration connectedProcess) as (H & _).
    apply H. reflexivity.
  - destruct (connection_cache_state_machine sampleEnvironment
                credentialedConfiguration freshProcess) as (_ & H & _).
    destruct (H eq_refl) as (Hreturned & Hok).
    destruct Hok as [w' Hw'].
    + intros path [= <-]. eexists. reflexivity.
    + intros opts. reflexivity.
    + exists w'. split; [exact Hw'|].
      destruct (Hreturned w' 0 Hw') as (_ & Hc & Hl & _). by split.
  - destruct (connection_cache_state_machine sampleEnvironment
                plainConfiguration connectedProcess) as (_ & _ & H & _).
    apply H. reflexivity.
  - destruct (connection_cache_state_machine sampleEnvironment
                plainConfiguration connectedProcess) as (_ & _ & _ & H).
    eexists _, _. split; [reflexivity|]. split; [reflexivity|].
    destruct (H _ _ 1 eq_refl eq_refl) as (_ & Hc & Hl). by split.
Defined.

(** ** Credentials *)

Lemma readsOf_app (evs1 evs2 : list Event) :
  readsOf (evs1 ++ evs2) = readsOf evs1 ++ readsOf evs2.
Proof. unfold readsOf. apply omap_app. Qed.

Lemma connect_and_store_events (env : Environment)
    (opts : ConnectionOptions) (w : Process) :
  events ((let* c := connect env opts in
           let* _ := setCached (Some c) in ret c) w).1 =
  events w ++ [Connect opts].
Proof. rewrite connect_and_store. by destruct (reachable env opts). Qed.

(** C7, as stated, fails: with a credential path configured, the second
    generation reads nothing when the cached connection is live, and the
    first generation never reads the file and connects without an
    authenticator. *)
Lemma credentials_not_always_read :
  credentialPath credentialedConfiguration = Some "/etc/loom/user.creds" ∧
  ClientV2.getNATSConnection sampleEnvironment credentialedConfiguration
    connectedProcess = (connectedProcess, Return 0) ∧
  readsOf (events connectedProcess) = [] ∧
  (ClientV1.getNATSConnection sampleEnvironment credentialedConfiguration
     freshProcess).2 = Return 0 ∧
  events (ClientV1.getNATSConnection sampleEnvironment
            credentialedConfiguration freshProcess).1 =
  [Connect {| servers := "nats://prod:4222"; name := "loom-shuttle";
              maxReconnectAttempts := 10; reconnectTimeWait := 1000;
              authenticator := None |}].
Proof. repeat split. Qed.

(** C7 (amended): when the second generation has to create a connection
    (no live cached connection) and a non-empty credential path is
    configured, it reads that file and then connects with the
    authenticator built from the contents; if the read fails it connects
    to nothing, leaves the cache as it was and raises an error whose
    message names the path and carries the cause. With no credential
    path (absent or empty) it reads no file, and with a live cached
    connection it makes no call at all. The first generation never reads
    a credential file. *)
Theorem credentials_on_connect
    (env : Environment) (config : CLIConfiguration) (w : Process) :
  (liveConnection w = None → ∀ path, credentialPath config = Some path →
     match fileContents env path with
     | Return credsContent =>
         events (ClientV2.getNATSConnection env config w).1 =
         events w ++
           [ReadFile path;
            Connect (withAuthenticator (baseOptions config)
                       (credsAuthenticator credsContent))]
     | Throw message =>
         ClientV2.getNATSConnection env config w =
         (record (ReadFile path) w,
          Throw ("Failed to read NATS credentials file: " +:+ path
                 +:+ ": " +:+ message))
     end) ∧
  (credentialPath config = None →
     readsOf (events (ClientV2.getNATSConnection env config w).1) =
     readsOf (events w)) ∧
  (∀ c, liveConnection w = Some c →
     events (ClientV2.getNATSConnection env config w).1 = events w) ∧
  readsOf (events (ClientV1.getNATSConnection env config w).1) =
  readsOf (events w).
Proof.
  split; [|split; [|split]].
  - intros Hmiss path Hpath. rewrite (V2_miss _ _ _ Hmiss), V2_establish_cases.
    unfold credentialPath in Hpath.
    destruct (natsCredentials config) as [path'|]; [|done].
    destruct (truthyStr path'); [|done]. injection Hpath as ->.
    destruct (fileContents env path) as [content|message]; [|done].
    rewrite connect_and_store_events. simpl. by rewrite <- app_assoc.
  - intros Hnone. destruct (liveConnection w) as [c|] eqn:Hlive.
    + by rewrite (V2_hit _ _ _ _ Hlive).
    + rewrite (V2_miss _ _ _ Hlive), V2_establish_cases.
      unfold credentialPath in Hnone.
      destruct (natsCredentials config) as [path'|];
        [destruct (truthyStr path'); [done|]|];
        rewrite connect_and_store_events, readsOf_app; simpl;
        by rewrite app_nil_r.
  - intros c Hlive. by rewrite (V2_hit _ _ _ _ Hlive).
  - destruct (liveConnection w) as [c|] eqn:Hlive.
    + by rewrite (V1_hit _ _ _ _ Hlive).
    + rewrite (V1_miss _ _ _ Hlive), V1_establish_cases.
      rewrite connect_and_store_events, readsOf_app. simpl.
      by rewrite app_nil_r.
Qed.

Lemma credentials_on_connect_witness :
  events (ClientV2.getNATSConnection sampleEnvironment
            credentialedConfiguration freshProcess).1 =
  [ReadFile "/etc/loom/user.creds";
   Connect (withAuthenticator (baseOptions credentialedConfiguration)
              (credsAuthenticator "SECRET"))] ∧
  ClientV2.getNATSConnection sampleEnvironment
    missingCredentialsConfiguration freshProcess =
  (record (ReadFile "/nowhere.creds") freshProcess,
   Throw ("Failed to read NATS credentials file: /nowhere.creds: "
          +:+ "ENOENT: no such file or directory, open '/nowhere.creds'")) ∧
  readsOf (events (ClientV2.getNATSConnection sampleEnvironment
                     plainConfiguration freshProcess).1) = [] ∧
  events (ClientV2.getNATSConnection sampleEnvironment
            credentialedConfiguration connectedProcess).1 =
  events connectedProcess.
Proof.
  split; [|split; [|split]].
  - destruct (credentials_on_connect sampleEnvironment
                credentialedConfiguration freshProcess) as (H & _).
    exact (H eq_refl "/etc/loom/user.creds" eq_refl).
  - destruct (credentials_on_connect sampleEnvironment
                missingCredentialsConfiguration freshProcess) as (H & _).
    exact (H eq_refl "/nowhere.creds" eq_refl).
  - destruct (credentials_on_connect sampleEnvironment
                plainConfiguration freshProcess) as (_ & H & _).
    exact (H eq_refl).
  - destruct (credentials_on_connect sampleEnvironment
                credentialedConfiguration connectedProcess)
      as (_ & _ & H & _).
    exact (H 0 eq_refl).
Defined.

(** ** The two generations *)

Lemma establish_agree (env : Environment) (config : CLIConfiguration)
    (w : Process) :
  credentialPath config = None →
  ClientV1.establish env config w = ClientV2.establish env config w.
Proof.
  intros Hnone. rewrite V1_establish_cases, V2_establish_cases.
  unfold credentialPath in Hnone.
  destruct (natsCredentials config) as [path|]; [|done].
  by destruct (truthyStr path).
Qed.

Lemma acquire_agree (env : Environment) (config : CLIConfiguration)
    (w : Process) :
  credentialPath config = None →
  ClientV1.getNATSConnection env config w =
  ClientV2.getNATSConnection env config w.
Proof.
  intros Hnone. destruct (liveConnection w) as [c|] eqn:Hlive.
  - by rewrite (V1_hit _ _ _ _ Hlive), (V2_hit _ _ _ _ Hlive).
  - rewrite (V1_miss _ _ _ Hlive), (V2_miss _ _ _ Hlive).
    by apply establish_agree.
Qed.

Lemma release_agree (w : Process) :
  ClientV1.closeNATSConnection w = ClientV2.closeNATSConnection w.
Proof. reflexivity. Qed.

Lemma step_agree (env : Environment) (call : Call) (w : Process) :
  noCredentials call → step clientV1 env call w = step clientV2 env call w.
Proof.
  destruct call as [config|]; simpl; intros H.
  - by rewrite acquire_agree.
  - by rewrite release_agree.
Qed.

Lemma run_agree (env : Environment) (calls : list Call) (w : Process) :
  Forall noCredentials calls →
  run clientV1 env calls w = run clientV2 env calls w.
Proof.
  intros H. revert w. induction H as [|call calls Hcall _ IH]; intros w.
  - reflexivity.
  - simpl. rewrite (step_agree env call w Hcall).
    destruct (step clientV2 env call w) as [w' o]. by rewrite IH.
Qed.

(** C9: for a configuration with no credential file path, the two
    generations of [getNATSConnection] return the same result and leave
    the same state, and when they connect both pass the options
    servers = the endpoint or 'nats://localhost:4222', name =
    'loom-shuttle', 10 reconnect attempts, 1000 ms between attempts and
    no authenticator; [closeNATSConnection] is the same function in
    both; hence every sequence of acquisitions and releases with such
    configurations behaves identically, cache included. *)
Theorem generations_equivalent
    (env : Environment) (config : CLIConfiguration) (w : Process) :
  credentialPath config = None →
  ClientV1.getNATSConnection env config w =
  ClientV2.getNATSConnection env config w ∧
  ClientV1.closeNATSConnection w = ClientV2.closeNATSConnection w ∧
  (liveConnection w = None →
   events (ClientV2.getNATSConnection env config w).1 =
   events w ++
     [Connect {| servers := match natsUrl config with
                            | Some url =>
                                if truthyStr url then url
                                else "nats://localhost:4222"
                            | None => "nats://localhost:4222"
                            end;
                 name := "loom-shuttle";
                 maxReconnectAttempts := 10;
                 reconnectTimeWait := 1000;
                 authenticator := None |}]) ∧
  (∀ calls : list Call,
     Forall noCredentials calls →
     run clientV1 env calls w = run clientV2 env calls w).
Proof.
  intros Hnone. split; [by apply acquire_agree|].
  split; [apply release_agree|]. split.
  - intros Hlive. rewrite <- acquire_agree by done.
    rewrite (V1_miss _ _ _ Hlive), V1_establish_cases.
    by rewrite connect_and_store_events.
  - intros calls. apply run_agree.
Qed.

Lemma generations_equivalent_witness :
  ClientV1.getNATSConnection sampleEnvironment plainConfiguration
    freshProcess =
  ClientV2.getNATSConnection sampleEnvironment plainConfiguration
    freshProcess ∧
  events (ClientV2.getNATSConnection sampleEnvironment plainConfiguration
            freshProcess).1 =
  [Connect {| servers := "nats://localhost:4222"; name := "loom-shuttle";
              maxReconnectAttempts := 10; reconnectTimeWait := 1000;
              authenticator := None |}] ∧
  run clientV1 sampleEnvironment
    [Acquire plainConfiguration; Acquire plainConfiguration; Release;
     Acquire plainConfiguration] freshProcess =
  run clientV2 sampleEnvironment
    [Acquire plainConfiguration; Acquire plainConfiguration; Release;
     Acquire plainConfiguration] freshProcess.
Proof.
  destruct (generations_equivalent sampleEnvironment plainConfiguration
              freshProcess eq_refl) as (H1 & _ & H2 & H3).
  split; [exact H1|]. split; [exact (H2 eq_refl)|].
  apply H3. repeat constructor.
Defined.

(** ** Failure paths of the commands *)

(** C8: on a 404 response [work show] (and [shutdown] for an agent)
    raises the same generic failure as for any other status, the remote
    error text or HTTP <status>, and its message never depends on the
    requested id; only [targets show] has the specific not-found
    message naming the entity. *)
Theorem work_show_not_found_is_generic :
  workShowAction "w-42" notFound = Exit 1 ["Error: HTTP 404"] ∧
  workShowAction "w-42" serverError = Exit 1 ["Error: HTTP 500"] ∧
  shutdownCommand "agent-7" notFound = Exit 1 ["Error: HTTP 404"] ∧
  targetsShowCommand "build-box" notFound =
    Exit 1 ["Error: Target not found: build-box"] ∧
  targetsShowCommand "build-box" serverError = Exit 1 ["Error: HTTP 500"] ∧
  (∀ (T : Type) (id1 id2 : string) (response : ResponseEnvelope T),
     workShowAction id1 response = workShowAction id2 response) ∧
  (∀ (T : Type) (id : string) (c : ascii) (message : string) (d : option T),
     workShowAction id
       {| ok := false; status := 404; data := d;
          error := Some (String c message) |} =
     Exit 1 ["Error: " +:+ String c message] ∧
     workShowAction id
       {| ok := false; status := 500; data := d;
          error := Some (String c message) |} =
     Exit 1 ["Error: " +:+ String c message]).
Proof. repeat split. Qed.

(** ** Priority of a submitted work item *)

(** C10, as stated, fails: [--priority 0] is given, yet the work item
    gets the configuration's default priority. *)
Lemma given_priority_zero_is_dropped :
  options.priority (submitOptionsWith (Some (Num 0))) = Some (Num 0) ∧
  submitAction (Some "fix the build") (submitOptionsWith (Some (Num 0)))
    plainGlobals (configurationWithPriority (Some 7%Z)) promptedDetails
    "0b1c" =
  Proceed {| request.description := "fix the build";
             request.boundary := "production";
             request.capability := "typescript";
             request.priority := Num 7;
             request.taskId := "0b1c";
             request.deadline := None |}.
Proof. split; reflexivity. Qed.

Lemma orNum_truthy (a : option number) (n : number) :
  truthyNum n = true → truthyNum (orNum a n) = true.
Proof.
  intros Hn. destruct a as [m|]; simpl; [|done].
  by destruct (truthyNum m) eqn:E.
Qed.

Lemma submitted_priority_cases (o : options.t) (config : CLIConfiguration) :
  orNum (orElseNum (options.priority o) (Num <$> defaultPriority config))
    (Num 5) =
  match options.priority o with
  | Some (Num z) =>
      if (z =? 0)%Z then
        match defaultPriority config with
        | Some d => if (d =? 0)%Z then Num 5 else Num d
        | None => Num 5
        end
      else Num z
  | Some NaN | None =>
      match defaultPriority config with
      | Some d => if (d =? 0)%Z then Num 5 else Num d
      | None => Num 5
      end
  end.
Proof.
  unfold orNum, orElseNum, truthyNum.
  destruct (options.priority o) as [[|z]|],
    (defaultPriority config) as [d|]; cbn [fmap option_fmap option_map negb];
    try destruct (z =? 0)%Z eqn:Ez; try destruct (d =? 0)%Z eqn:Ed;
    cbn [negb]; rewrite ?Ez, ?Ed; reflexivity.
Qed.

(** C10 (amended): in the non-interactive submit path the priority of
    the submitted work item is the [--priority] value when it is given
    and is a number other than 0, otherwise the configuration's
    [defaultPriority] when it is present and not 0, otherwise 5; the
    priority is never unset, [NaN] or 0; and the path does submit when
    description, boundary and capability are given, the boundary is
    not blank and no agent type is asked for. *)
Theorem submit_priority (descriptionArg : option string) (o : options.t)
    (g : globalOpts.t) (config : CLIConfiguration) (prompted : WorkDetails)
    (uuid : string) :
  needsInteractive descriptionArg o && negb (globalOpts.json g) = false →
  (∀ req, submitAction descriptionArg o g config prompted uuid = Proceed req →
     request.priority req =
       match options.priority o with
       | Some (Num z) =>
           if (z =? 0)%Z then
             match defaultPriority config with
             | Some d => if (d =? 0)%Z then Num 5 else Num d
             | None => Num 5
             end
           else Num z
       | Some NaN | None =>
           match defaultPriority config with
           | Some d => if (d =? 0)%Z then Num 5 else Num d
           | None => Num 5
           end
       end ∧
     truthyNum (request.priority req) = true) ∧
  (truthyOpt descriptionArg = true →
   (∃ b, options.boundary o = Some b ∧ trim b ≠ EmptyString) →
   truthyOpt (options.capability o) = true →
   options.agentType o = None →
   ∃ req, submitAction descriptionArg o g config prompted uuid = Proceed req).
Proof.
  intros Hpath. unfold submitAction. rewrite Hpath. unfold required. split.
  - intros req.
    destruct descriptionArg as [d|]; [destruct (truthyStr d)|]; try done.
    destruct (options.boundary o) as [b|]; [destruct (truthyStr b)|];
      try done.
    destruct (options.capability o) as [c|]; [destruct (truthyStr c)|];
      try done.
    cbn [boundary description capability priority].
    destruct (negb _ || _); [done|].
    rewrite <- submitted_priority_cases.
    clear Hpath.
    destruct (options.agentType o) as [a|];
      [destruct (truthyStr a && _); [done|]|];
      intros [= <-]; simpl; (split; [done|]); by apply orNum_truthy.
  - intros Hd (b & Hb & Hblank) Hc Ha. rewrite Hb, Ha.
    destruct descriptionArg as [d|]; [simpl in Hd; rewrite Hd|done].
    assert (truthyStr b = true) as ->.
    { destruct b; [by simpl in Hblank|done]. }
    destruct (options.capability o) as [c|]; [simpl in Hc; rewrite Hc|done].
    cbn [boundary description capability priority].
    destruct b as [|x b]; [done|]. simpl negb.
    destruct (trim (String x b)) eqn:E; [done|]. simpl. eauto.
Qed.

Lemma submit_priority_witness :
  submitAction (Some "fix the build") (submitOptionsWith (Some (Num 9)))
    plainGlobals (configurationWithPriority (Some 7%Z)) promptedDetails
    "0b1c" =
  Proceed {| request.description := "fix the build";
             request.boundary := "production";
             request.capability := "typescript";
             request.priority := Num 9;
             request.taskId := "0b1c";
             request.deadline := None |} ∧
  ∃ req,
    submitAction (Some "fix the build") (submitOptionsWith None)
      plainGlobals (configurationWithPriority None) promptedDetails "0b1c" =
    Proceed req ∧ request.priority req = Num 5.
Proof.
  split; [reflexivity|].
  destruct (submit_priority (Some "fix the build") (submitOptionsWith None)
              plainGlobals (configurationWithPriority None) promptedDetails
              "0b1c" eq_refl) as [Hprio Hsubmits].
  destruct Hsubmits as [req Hreq];
    [reflexivity | by eexists | reflexivity | reflexivity |].
  exists req. split; [exact Hreq|]. by apply Hprio.
Defined.

(** ** The configuration store *)

Lemma lookup_spread (a b : gmap string JSON) (k : string) :
  spread a b !! k =
  match b !! k with
  | Some v => Some v
  | None => a !! k
  end.
Proof.
  unfold spread. rewrite lookup_union.
  destruct (b !! k), (a !! k); reflexivity.
Qed.

Lemma lookup_fromEnvironment (variable field : string) (m : Machine)
    (config : gmap string JSON) (k : string) :
  fromEnvironment variable field m config !! k =
  match environmentField variable field m !! k with
  | Some v => Some v
  | None => config !! k
  end.
Proof.
  unfold fromEnvironment, environmentField.
  destruct (processEnv m !! variable) as [value|].
  - destruct (decide (field = k)) as [->|Hne].
    + by rewrite lookup_insert_eq, lookup_singleton_eq.
    + by rewrite lookup_insert_ne, lookup_singleton_ne.
  - by rewrite lookup_empty.
Qed.

Lemma lookup_environmentField (variable field : string) (m : Machine)
    (k : string) :
  environmentField variable field m !! k =
  if decide (field = k) then JString <$> processEnv m !! variable else None.
Proof.
  unfold environmentField.
  destruct (processEnv m !! variable) as [value|]; simpl.
  - destruct (decide (field = k)) as [->|Hne].
    + by rewrite lookup_singleton_eq.
    + by rewrite lookup_singleton_ne.
  - rewrite lookup_empty. by destruct (decide (field = k)).
Qed.

(** The environment source defines exactly the fields of the variables
    that are set. *)
Lemma lookup_environmentSource (m : Machine) (k : string) :
  environmentSource m !! k =
  if decide (k = "natsUrl") then JString <$> processEnv m !! "NATS_URL"
  else if decide (k = "projectId") then
    JString <$> processEnv m !! "PROJECT_ID"
  else if decide (k = "apiUrl") then
    JString <$> processEnv m !! "LOOM_API_URL"
  else if decide (k = "apiToken") then
    JString <$> processEnv m !! "LOOM_API_TOKEN"
  else None.
Proof.
  unfold environmentSource. rewrite !lookup_union, !lookup_environmentField.
  repeat case_decide; simplify_eq;
    repeat match goal with
           | |- context [processEnv m !! ?v] => destruct (processEnv m !! v)
           end; reflexivity.
Qed.

Lemma lookup_overrideSource (source : option LoadSource) (k : string) :
  overrideSource source !! k =
  match projectOverrideOf source with
  | Some project =>
      if truthyStr project && bool_decide (k = "projectId")
      then Some (JString project) else None
  | None => None
  end.
Proof.
  unfold overrideSource.
  destruct (projectOverrideOf source) as [project|]; [|done].
  destruct (truthyStr project); simpl; [|done].
  case_bool_decide as Hk.
  - subst k. by rewrite lookup_singleton_eq.
  - by rewrite lookup_singleton_ne.
Qed.

Lemma load_lookup (source : option LoadSource) (m : Machine)
    (fileConfig : gmap string JSON) (k : string) :
  readConfigFile m (resolvePath m source) = Return fileConfig →
  loaded k (loadConfig source m) =
  highestPrecedence k
    [overrideSource source; environmentSource m; fileConfig; builtinDefaults].
Proof.
  intros Hfile. unfold loadConfig. rewrite Hfile.
  cbn [loaded highestPrecedence].
  rewrite lookup_overrideSource.
  assert (∀ config : gmap string JSON,
    match projectOverrideOf source with
    | Some project =>
        if truthyStr project then <["projectId" := JString project]> config
        else config
    | None => config
    end !! k =
    match
      match projectOverrideOf source with
      | Some project =>
          if truthyStr project && bool_decide (k = "projectId")
          then Some (JString project) else None
      | None => None
      end
    with
    | Some v => Some v
    | None => config !! k
    end) as ->.
  { intros config. destruct (projectOverrideOf source) as [project|]; [|done].
    destruct (truthyStr project); simpl; [|done].
    case_bool_decide as Hk.
    - subst k. by rewrite lookup_insert_eq.
    - by rewrite lookup_insert_ne. }
  destruct (match projectOverrideOf source with
            | Some _ => _ | None => _ end) as [v|]; [done|].
  rewrite !lookup_fromEnvironment, lookup_spread.
  rewrite lookup_environmentSource, !lookup_environmentField.
  repeat case_decide; simplify_eq;
    repeat match goal with
           | |- context [processEnv m !! ?v] => destruct (processEnv m !! v)
           end; simpl; try reflexivity;
    destruct (fileConfig !! _); try reflexivity;
    by destruct (builtinDefaults !! _).
Qed.

Lemma readConfigFile_wellFormed (m : Machine) (source : option LoadSource) :
  wellFormed m (resolvePath m source) →
  readConfigFile m (resolvePath m source) = Return (fileSource m source).
Proof.
  unfold wellFormed, readConfigFile, fileSource. intros H.
  destruct (files m !! resolvePath m source) as [[object|e]|]; try done.
  by destruct (H e).
Qed.

(** A well-formed or missing file makes [loadConfig] return, and the
    configuration it returns follows the precedence of the sources. *)
Lemma load_returns (source : option LoadSource) (m : Machine) :
  wellFormed m (resolvePath m source) →
  ∃ config,
    loadConfig source m = Return config ∧
    ∀ k, config !! k =
         highestPrecedence k
           [overrideSource source; environmentSource m;
            fileSource m source; builtinDefaults].
Proof.
  intros Hfile%readConfigFile_wellFormed.
  assert (∃ config, loadConfig source m = Return config) as [config Hload].
  { unfold loadConfig. rewrite Hfile. eauto. }
  exists config. split; [done|].
  intros k. rewrite <- (load_lookup source m _ k Hfile). by rewrite Hload.
Qed.

(** C1: when the configuration file is missing or holds a JSON object,
    [loadConfig] returns a configuration in which every field has the
    value of the highest-precedence source that defines it, in the order
    [projectOverride] (project id only, and only if non-empty),
    environment variables, persisted file, built-in defaults, and is
    undefined when no source defines it; with no file, no [NATS_URL], no
    [PROJECT_ID] and no override the project id is [default] and the
    transport endpoint is [nats://localhost:4222]. *)
Theorem load_resolves_by_precedence
    (source : option LoadSource) (m : Machine) :
  wellFormed m (resolvePath m source) →
  ∃ config,
    loadConfig source m = Return config ∧
    (∀ k, config !! k =
          highestPrecedence k
            [overrideSource source; environmentSource m;
             fileSource m source; builtinDefaults]) ∧
    (files m !! resolvePath m source = None →
     processEnv m !! "NATS_URL" = None →
     processEnv m !! "PROJECT_ID" = None →
     truthyOpt (projectOverrideOf source) = false →
     config !! "projectId" = Some (JString "default") ∧
     config !! "natsUrl" = Some (JString "nats://localhost:4222")).
Proof.
  intros (config & Hload & Hall)%load_returns.
  exists config. split; [done|]. split; [done|].
  intros Hnone Hnats Hproject Hoverride.
  rewrite !Hall. cbn [highestPrecedence].
  rewrite !lookup_overrideSource, !lookup_environmentSource.
  unfold fileSource. rewrite Hnone, !lookup_empty.
  destruct (projectOverrideOf source) as [project|];
    [simpl in Hoverride; rewrite Hoverride|];
    simpl; rewrite ?Hnats, ?Hproject; split; reflexivity.
Qed.

Lemma load_resolves_by_precedence_witness :
  loaded "natsUrl"
    (loadConfig (Some (Options (Some "/tmp/config.json") (Some "override")))
       machineWithFile) = Some (JString "nats://env:4222") ∧
  loaded "projectId"
    (loadConfig (Some (Options (Some "/tmp/config.json") (Some "override")))
       machineWithFile) = Some (JString "override") ∧
  loaded "projectId" (loadConfig None bareMachine) =
    Some (JString "default") ∧
  loaded "natsUrl" (loadConfig None bareMachine) =
    Some (JString "nats://localhost:4222").
Proof.
  destruct (load_resolves_by_precedence
              (Some (Options (Some "/tmp/config.json") (Some "override")))
              machineWithFile) as (config & Hload & Hall & _).
  { intros e. vm_compute. discriminate. }
  destruct (load_resolves_by_precedence None bareMachine)
    as (config' & Hload' & _ & Hbare).
  { intros e. vm_compute. discriminate. }
  destruct Hbare as [Hp Hn]; try reflexivity.
  rewrite Hload, Hload'. cbn [loaded]. rewrite !Hall.
  repeat split; try assumption; vm_compute; reflexivity.
Defined.

(** C2, as stated, fails: a saved field that an environment variable
    also defines is not what [loadConfig] returns afterwards. *)
Lemma saved_field_hidden_by_environment :
  savedPartial !! "natsUrl" = Some (JString "nats://saved:4222") ∧
  (saveConfig savedPartial (Some "/tmp/config.json")
     machineWithEnvironment).2 = Return tt ∧
  loaded "natsUrl"
    (loadConfig (Some (Path "/tmp/config.json"))
       (saveConfig savedPartial (Some "/tmp/config.json")
          machineWithEnvironment).1) =
  Some (JString "nats://env:4222").
Proof. repeat split; vm_compute; reflexivity. Qed.

Lemma wellFormed_after_save (m : Machine) (path : string)
    (object : gmap string JSON) :
  wellFormed
    {| homedir := homedir m; processEnv := processEnv m;
       files := <[path := ValidJSON object]> (files m) |} path.
Proof. intros e. simpl. by rewrite lookup_insert_eq. Qed.

(** C2 (amended): when the file at the path is missing or holds a JSON
    object C, [saveConfig P] succeeds and writes P shallow-merged on top
    of C: every field of P is in the file with the saved value and every
    other field of C is kept as it was; a following [loadConfig] of that
    path returns the saved value for every field of P that neither the
    environment nor [projectOverride] defines, and for every field not
    in P the same value as before the save. *)
Theorem save_then_load (partial : gmap string JSON) (path : string)
    (m : Machine) :
  wellFormed m path →
  ∃ m' existing,
    saveConfig partial (Some path) m = (m', Return tt) ∧
    readConfigFile m path = Return existing ∧
    files m' !! path = Some (ValidJSON (spread existing partial)) ∧
    (∀ k v, partial !! k = Some v → spread existing partial !! k = Some v) ∧
    (∀ k, partial !! k = None →
          spread existing partial !! k = existing !! k) ∧
    ∀ source, resolvePath m source = path →
      ∃ before after,
        loadConfig source m = Return before ∧
        loadConfig source m' = Return after ∧
        (∀ k v, partial !! k = Some v →
                overrideSource source !! k = None →
                environmentSource m !! k = None →
                after !! k = Some v) ∧
        (∀ k, partial !! k = None → after !! k = before !! k).
Proof.
  intros Hwf.
  pose proof (readConfigFile_wellFormed m (Some (Path path)) Hwf) as Hread.
  cbn [resolvePath] in Hread.
  set (existing := fileSource m (Some (Path path))) in *.
  eexists _, existing. unfold saveConfig. cbn [from_option id]. rewrite Hread.
  split; [reflexivity|]. split; [reflexivity|].
  split; [apply lookup_insert_eq|].
  split; [by intros k v Hk; rewrite lookup_spread, Hk|].
  split; [by intros k Hk; rewrite lookup_spread, Hk|].
  intros source Hpath.
  set (m' := {| homedir := homedir m; processEnv := processEnv m;
                files := <[path := ValidJSON (spread existing partial)]>
                           (files m) |}).
  assert (resolvePath m' source = path) as Hpath'.
  { rewrite <- Hpath. by destruct source as [[?|[?|] ?]|]. }
  destruct (load_returns source m)
    as (before & Hbefore & Hb); [by rewrite Hpath|].
  destruct (load_returns source m')
    as (after & Hafter & Ha).
  { rewrite Hpath'. apply wellFormed_after_save. }
  exists before, after. split; [done|]. split; [done|].
  assert (fileSource m' source = spread existing partial) as Hfile'.
  { unfold fileSource. rewrite Hpath'. subst m'. simpl.
    by rewrite lookup_insert_eq. }
  assert (fileSource m source = existing) as Hfile.
  { unfold existing, fileSource. by rewrite Hpath. }
  assert (environmentSource m' = environmentSource m) as Henv by done.
  split.
  - intros k v Hk Ho He. rewrite Ha. cbn [highestPrecedence].
    by rewrite Ho, Henv, He, Hfile', lookup_spread, Hk.
  - intros k Hk. rewrite Ha, Hb. cbn [highestPrecedence].
    by rewrite Henv, Hfile', Hfile, lookup_spread, Hk.
Qed.

Lemma save_then_load_witness :
  ∃ m', saveConfig savedPartial (Some "/tmp/config.json") machineWithFile =
        (m', Return tt) ∧
        (∃ object, files m' !! "/tmp/config.json" = Some (ValidJSON object) ∧
                   object !! "natsUrl" = Some (JString "nats://saved:4222") ∧
                   object !! "projectId" = Some (JString "file-project")) ∧
        loaded "defaultBoundary"
          (loadConfig (Some (Path "/tmp/config.json")) m') =
        Some (JString "staging") ∧
        loaded "projectId" (loadConfig (Some (Path "/tmp/config.json")) m') =
        Some (JString "file-project").
Proof.
  destruct (save_then_load savedPartial "/tmp/config.json" machineWithFile)
    as (m' & existing & Hsave & Hread & Hfile & Hin & Hout & Hload).
  { intros e. vm_compute. discriminate. }
  destruct (Hload (Some (Path "/tmp/config.json")) eq_refl)
    as (before & after & Hbefore & Hafter & Hsaved & Hkept).
  exists m'. split; [exact Hsave|]. split.
  - eexists. split; [exact Hfile|]. split.
    + apply Hin. vm_compute. reflexivity.
    + rewrite Hout by (vm_compute; reflexivity).
      injection Hread as <-. vm_compute. reflexivity.
  - rewrite Hafter. cbn [loaded]. split.
    + apply Hsaved; vm_compute; reflexivity.
    + rewrite Hkept by (vm_compute; reflexivity).
      injection Hbefore as <-. vm_compute. reflexivity.
Defined.

(** ** Validation *)

Lemma length_zero_iff_empty (s : string) :
  (String.length s =? 0)%nat = bool_decide (s = EmptyString).
Proof. by destruct s. Qed.

Lemma prefix_eqb_decide (s t : string) :
  String.eqb s t = bool_decide (s = t).
Proof.
  destruct (String.eqb_spec s t) as [->|Hne].
  - by rewrite bool_decide_eq_true_2.
  - by rewrite bool_decide_eq_false_2.
Qed.

Lemma priority_range (p : Z) :
  (p <? 1)%Z || (10 <? p)%Z = negb ((1 <=? p)%Z && (p <=? 10)%Z).
Proof.
  destruct (Z.ltb_spec p 1), (Z.ltb_spec 10 p),
    (Z.leb_spec 1 p), (Z.leb_spec p 10); simpl; try reflexivity; lia.
Qed.

(** C3: [validateConfig] returns, for every candidate, the list of the
    violations of the four rules, each rule contributing its message
    exactly when it is violated, whatever the other rules say, in the
    order scheme, priority range, boundary, output format; it reads
    nothing but its argument. On [{defaultPriority: 15}] the list is
    exactly the priority-range violation; on [{natsUrl: 'http://x'}] it
    holds the scheme violation and on [{defaultBoundary: '   '}] the
    non-empty-boundary violation. *)
Theorem validate_reports_every_violation (config : CLIConfiguration) :
  validateConfig config =
    (if violatesScheme config then [schemeMessage] else [])
    ++ (if violatesPriority config then [priorityMessage] else [])
    ++ (if violatesBoundary config then [boundaryMessage] else [])
    ++ (if violatesFormat config then [formatMessage] else []) ∧
  validateConfig
    {| natsUrl := None; projectId := None; natsCredentials := None;
       defaultBoundary := None; defaultPriority := Some 15%Z;
       outputFormat := None; apiUrl := None; apiToken := None |} =
    ["defaultPriority must be between 1 and 10"] ∧
  In "natsUrl must start with nats://"
    (validateConfig
       {| natsUrl := Some "http://x"; projectId := None;
          natsCredentials := None; defaultBoundary := None;
          defaultPriority := None; outputFormat := None; apiUrl := None;
          apiToken := None |}) ∧
  In "defaultBoundary must be a non-empty string"
    (validateConfig
       {| natsUrl := None; projectId := None; natsCredentials := None;
          defaultBoundary := Some "   "; defaultPriority := None;
          outputFormat := None; apiUrl := None; apiToken := None |}).
Proof.
  split; [|split; [reflexivity|split; left; reflexivity]].
  unfold validateConfig, violatesScheme, violatesPriority, violatesBoundary,
    violatesFormat.
  destruct (natsUrl config) as [url|]; [destruct (String.prefix _ url)|];
    (destruct (defaultPriority config) as [p|];
       [rewrite priority_range;
        destruct ((1 <=? p)%Z && (p <=? 10)%Z)|]);
    (destruct (defaultBoundary config) as [b|];
       [rewrite length_zero_iff_empty;
        destruct (bool_decide (trim b = EmptyString))|]);
    (destruct (outputFormat config) as [format|];
       [rewrite !prefix_eqb_decide;
        destruct (bool_decide (format = "table") || bool_decide (format = "json"))|]);
    reflexivity.
Qed.

(** ** The cases of the test file, replayed on the model *)

Example test_load_from_file :
  let m := {| homedir := "/home/op"; processEnv := ∅;
              files := {["/tmp/config.json" :=
                ValidJSON (<["natsUrl" := JString "nats://custom:4222"]>
                             (<["projectId" := JString "my-project"]> ∅))]} |} in
  loaded "natsUrl" (loadConfig (Some (Path "/tmp/config.json")) m) =
    Some (JString "nats://custom:4222") ∧
  loaded "projectId" (loadConfig (Some (Path "/tmp/config.json")) m) =
    Some (JString "my-project").
Proof. split; vm_compute; reflexivity. Qed.

Example test_environment_overrides_file :
  let m := {| homedir := "/home/op";
              processEnv := <["NATS_URL" := "nats://env:4222"]>
                              (<["PROJECT_ID" := "env-project"]> ∅);
              files := {["/tmp/config.json" :=
                ValidJSON (<["natsUrl" := JString "nats://file:4222"]>
                             (<["projectId" := JString "file-project"]> ∅))]} |} in
  loaded "natsUrl" (loadConfig (Some (Path "/tmp/config.json")) m) =
    Some (JString "nats://env:4222") ∧
  loaded "projectId" (loadConfig (Some (Path "/tmp/config.json")) m) =
    Some (JString "env-project").
Proof. split; vm_compute; reflexivity. Qed.

Example test_override_beats_environment :
  let m := {| homedir := "/home/op";
              processEnv := {["PROJECT_ID" := "env-project"]};
              files := ∅ |} in
  loaded "projectId"
    (loadConfig
       (Some (Options (Some "/tmp/config.json") (Some "override-project")))
       m) =
  Some (JString "override-project").
Proof. vm_compute. reflexivity. Qed.

Example test_save_merges_with_existing :
  let m := {| homedir := "/home/op"; processEnv := ∅;
              files := {["/tmp/config.json" :=
                ValidJSON (<["natsUrl" := JString "nats://existing:4222"]>
                             (<["projectId" := JString "existing-project"]> ∅))]} |} in
  let m' := (saveConfig {["projectId" := JString "updated-project"]}
               (Some "/tmp/config.json") m).1 in
  readConfigFile m' "/tmp/config.json" =
  Return (<["natsUrl" := JString "nats://existing:4222"]>
            (<["projectId" := JString "updated-project"]> ∅)).
Proof. vm_compute. reflexivity. Qed.

Example test_set_then_get :
  let m' := (setConfigValue "projectId" (JString "new-project")
               (Some "/tmp/config.json") bareMachine).1 in
  getConfigValue "projectId" (Some "/tmp/config.json") m' =
  Return (Some (JString "new-project")).
Proof. vm_compute. reflexivity. Qed.

Example test_malformed_file_is_fatal :
  let m := {| homedir := "/home/op"; processEnv := ∅;
              files := {["/home/op/.loom/config.json" :=
                          InvalidJSON "Unexpected end of JSON input"]} |} in
  loadConfig None m = Throw "Unexpected end of JSON input".
Proof. vm_compute. reflexivity. Qed.

Example test_valid_configuration_has_no_violation :
  validateConfig
    {| natsUrl := Some "nats://localhost:4222"; projectId := None;
       natsCredentials := None; defaultBoundary := Some "personal";
       defaultPriority := Some 5%Z; outputFormat := Some "table";
       apiUrl := None; apiToken := None |} = [].
Proof. reflexivity. Qed.

Example test_invalid_output_format :
  validateConfig
    {| natsUrl := None; projectId := None; natsCredentials := None;
       defaultBoundary := None; defaultPriority := None;
       outputFormat := Some "xml"; apiUrl := None; apiToken := None |} =
  [formatMessage].
Proof. reflexivity. Qed.

Example test_all_rules_violated_at_once :
  validateConfig
    {| natsUrl := Some "http://localhost:4222"; projectId := None;
       natsCredentials := None; defaultBoundary := Some "   ";
       defaultPriority := Some 0%Z; outputFormat := Some "xml";
       apiUrl := None; apiToken := None |} =
  [schemeMessage; priorityMessage; boundaryMessage; formatMessage].
Proof. reflexivity. Qed.

(** ** A run of the connection helper *)

Example cache_reused_then_reconnected :
  (run clientV2 sampleEnvironment
     [Acquire credentialedConfiguration; Acquire plainConfiguration; Release;
      Release; Acquire missingCredentialsConfiguration;
      Acquire plainConfiguration]
     freshProcess).2 =
  [Acquired 0; Acquired 0; Released; Released;
   Raised ("Failed to read NATS credentials file: /nowhere.creds: "
           +:+ "ENOENT: no such file or directory, open '/nowhere.creds'");
   Acquired 1].
Proof. reflexivity. Qed.

(** * Further properties *)

(** ** The connection helper over several calls *)

Lemma V1_establish_returns (env : Environment) (config : CLIConfiguration)
    (w w' : Process) (c : nat) :
  ClientV1.establish env config w = (w', Return c) →
  c = length (connections w) ∧
  cachedConnection w' = Some c ∧
  connections w' = connections w ++ [opened (baseOptions config)].
Proof.
  rewrite V1_establish_cases, connect_and_store.
  destruct (reachable env _); [|discriminate].
  by intros [= <- <-].
Qed.

Lemma V1_establish_throws (env : Environment) (config : CLIConfiguration)
    (w w' : Process) (message : string) :
  ClientV1.establish env config w = (w', Throw message) →
  cachedConnection w' = cachedConnection w ∧
  connections w' = connections w.
Proof.
  rewrite V1_establish_cases, connect_and_store.
  destruct (reachable env _); [discriminate|].
  by intros [= <- _].
Qed.

Lemma V1_acquisition (env : Environment) (config : CLIConfiguration)
    (w : Process) :
  Acquisition w (ClientV1.getNATSConnection env config w).1
    (ClientV1.getNATSConnection env config w).2.
Proof.
  destruct (liveConnection w) as [c|] eqn:Hlive.
  - rewrite (V1_hit _ _ _ _ Hlive). by apply Reused.
  - rewrite (V1_miss _ _ _ Hlive).
    destruct (ClientV1.establish env config w) as [w' [c|message]] eqn:E.
    + apply V1_establish_returns in E as (-> & Hc & Hl).
      by eapply Created.
    + apply V1_establish_throws in E as (Hc & Hl). by apply Failed.
Qed.

Lemma V2_acquisition (env : Environment) (config : CLIConfiguration)
    (w : Process) :
  Acquisition w (ClientV2.getNATSConnection env config w).1
    (ClientV2.getNATSConnection env config w).2.
Proof.
  destruct (liveConnection w) as [c|] eqn:Hlive.
  - rewrite (V2_hit _ _ _ _ Hlive). by apply Reused.
  - rewrite (V2_miss _ _ _ Hlive).
    destruct (ClientV2.establish env config w) as [w' [c|message]] eqn:E.
    + apply V2_establish_returns in E as (-> & Hc & opts & Hl & _).
      by eapply Created.
    + apply V2_establish_throws in E as (Hc & Hl). by apply Failed.
Qed.

(** Both generations, as clients. *)
Lemma client_acquisition (K : Client) (env : Environment)
    (config : CLIConfiguration) (w : Process) :
  K = clientV1 ∨ K = clientV2 →
  Acquisition w (acquire K env config w).1 (acquire K env config w).2.
Proof.
  intros [-> | ->]; [apply V1_acquisition | apply V2_acquisition].
Qed.

Lemma client_release (K : Client) (w : Process) :
  K = clientV1 ∨ K = clientV2 → release K w = ClientV2.closeNATSConnection w.
Proof. by intros [-> | ->]. Qed.

Lemma acquired_is_live (w w' : Process) (c : nat) :
  Acquisition w w' (Return c) → liveConnection w' = Some c.
Proof.
  inversion 1; subst; [done|]. by eapply live_after_append.
Qed.

(** X1: closing twice is closing once: after [closeNATSConnection] a
    second call changes nothing, and no call adds or removes a
    connection object or leaves a live connection in the cache. *)
Theorem close_is_idempotent (w : Process) :
  ClientV2.closeNATSConnection (ClientV2.closeNATSConnection w).1 =
    ((ClientV2.closeNATSConnection w).1, Return tt) ∧
  ClientV1.closeNATSConnection (ClientV1.closeNATSConnection w).1 =
    ((ClientV1.closeNATSConnection w).1, Return tt) ∧
  liveConnection (ClientV2.closeNATSConnection w).1 = None ∧
  length (connections (ClientV2.closeNATSConnection w).1) =
  length (connections w).
Proof.
  destruct (V2_close_leaves_no_live w) as [Hnone Hlen].
  split; [by apply V2_close_idle|]. split; [by apply V2_close_idle|]. done.
Qed.

(** X2: once an acquisition has returned a connection, the next
    acquisition returns the same connection and changes nothing (no
    file read, no connect), even when it is given another
    configuration; this holds for both generations. *)
Theorem second_acquisition_reuses (K : Client) (env : Environment)
    (config config' : CLIConfiguration) (w w1 : Process) (c : nat) :
  K = clientV1 ∨ K = clientV2 →
  acquire K env config w = (w1, Return c) →
  acquire K env config' w1 = (w1, Return c).
Proof.
  intros HK Hfirst.
  pose proof (client_acquisition K env config w HK) as Hacq.
  rewrite Hfirst in Hacq. apply acquired_is_live in Hacq.
  destruct HK as [-> | ->]; [by apply V1_hit | by apply V2_hit].
Qed.

Lemma second_acquisition_reuses_witness :
  ∃ w1, acquire clientV2 sampleEnvironment plainConfiguration freshProcess =
        (w1, Return 0) ∧
        acquire clientV2 sampleEnvironment missingCredentialsConfiguration w1 =
        (w1, Return 0).
Proof.
  eexists. split; [reflexivity|].
  apply (second_acquisition_reuses clientV2 sampleEnvironment
           plainConfiguration missingCredentialsConfiguration freshProcess);
    [by right | reflexivity].
Defined.

(** X3: an acquisition that raises (unreadable credentials, unreachable
    server) happens only when no live connection is cached, and leaves
    the cache and the connection objects exactly as they were; this
    holds for both generations. *)
Theorem failed_acquisition_keeps_cache (K : Client) (env : Environment)
    (config : CLIConfiguration) (w w' : Process) (message : string) :
  K = clientV1 ∨ K = clientV2 →
  acquire K env config w = (w', Throw message) →
  liveConnection w = None ∧
  cachedConnection w' = cachedConnection w ∧
  connections w' = connections w.
Proof.
  intros HK Hget.
  pose proof (client_acquisition K env config w HK) as Hacq.
  rewrite Hget in Hacq. by inversion Hacq.
Qed.

Lemma failed_acquisition_keeps_cache_witness :
  ∃ w' message,
    acquire clientV2 sampleEnvironment missingCredentialsConfiguration
      freshProcess = (w', Throw message) ∧
    cachedConnection w' = None ∧ connections w' = [].
Proof.
  eexists _, _. split; [reflexivity|].
  destruct (failed_acquisition_keeps_cache clientV2 sampleEnvironment
              missingCredentialsConfiguration freshProcess _ _
              (or_intror eq_refl) eq_refl) as (_ & Hc & Hl).
  by split.
Defined.

Lemma tidy_no_live_all_closed (w : Process) (i : nat) (n : NatsConnection) :
  tidy w → liveConnection w = None → connections w !! i = Some n →
  closed n = true.
Proof.
  intros [_ Hopen] Hlive Hi. destruct (closed n) eqn:Hn; [done|].
  pose proof (Hopen i n Hi Hn) as Hc.
  unfold liveConnection, closedIn in Hlive. by rewrite Hc, Hi, Hn in Hlive.
Qed.

Lemma tidy_acquisition (w w' : Process) (o : Outcome nat) :
  tidy w → Acquisition w w' o → tidy w'.
Proof.
  intros Htidy Hacq. inversion Hacq as [c Hlive|w1 opts Hlive Hc Hl|
                                        w1 message Hlive Hc Hl]; subst.
  - done.
  - split.
    + intros c. rewrite Hc, Hl, length_app. intros [= <-]. simpl. lia.
    + intros i n. rewrite Hc, Hl. intros Hi Hn.
      apply lookup_app_Some in Hi as [Hi|[Hge Hi]].
      * by rewrite (tidy_no_live_all_closed w i n Htidy Hlive Hi) in Hn.
      * apply list_lookup_singleton_Some in Hi as [Hi _].
        f_equal. lia.
  - destruct Htidy as [Hin Hopen]. split.
    + intros c. rewrite Hc, Hl. apply Hin.
    + intros i n. rewrite Hc, Hl. apply Hopen.
Qed.

Lemma tidy_release (w : Process) :
  tidy w → tidy (ClientV2.closeNATSConnection w).1.
Proof.
  intros Htidy. destruct (liveConnection w) as [c|] eqn:Hlive.
  - rewrite (V2_close_live w c Hlive). split; [done|].
    cbn [fst connections cachedConnection]. intros i n Hi Hn. exfalso.
    rewrite !list_lookup_alter in Hi.
    destruct (decide (c = i)) as [Heq|Hne].
    + destruct (decide (c = c)); [|done].
      destruct (connections w !! c) as [n0|]; simpl in Hi; [|done].
      injection Hi as <-. done.
    + destruct Htidy as [_ Hopen]. pose proof (Hopen i n Hi Hn) as Hc.
      apply liveConnection_Some in Hlive as [Hc' _]. congruence.
  - by rewrite (V2_close_idle w Hlive).
Qed.

Lemma tidy_step (K : Client) (env : Environment) (call : Call)
    (w : Process) :
  K = clientV1 ∨ K = clientV2 → tidy w → tidy (step K env call w).1.
Proof.
  intros HK Htidy. destruct call as [config|]; simpl.
  - pose proof (client_acquisition K env config w HK) as Hacq.
    destruct (acquire K env config w) as [w' [c|message]];
      by eapply tidy_acquisition.
  - pose proof (tidy_release w Htidy) as H.
    rewrite <- (client_release K w HK) in H.
    by destruct (release K w) as [w' [[]|message]].
Qed.

(** X4: along any sequence of acquisitions and releases, with either
    generation and whatever the outside answers, the helper keeps the
    state tidy: the cache refers to an existing connection object, and
    every connection that is still open is the cached one, so at most
    one connection is open at any time and none is leaked. *)
Theorem helper_never_leaks (K : Client) (env : Environment)
    (calls : list Call) (w : Process) :
  K = clientV1 ∨ K = clientV2 →
  tidy w →
  tidy (run K env calls w).1 ∧
  ∀ i j ni nj,
    connections (run K env calls w).1 !! i = Some ni → closed ni = false →
    connections (run K env calls w).1 !! j = Some nj → closed nj = false →
    i = j.
Proof.
  intros HK Htidy.
  assert (tidy (run K env calls w).1) as H.
  { revert w Htidy. induction calls as [|call calls IH]; intros w Htidy.
    - done.
    - simpl. pose proof (tidy_step K env call w HK Htidy) as Hstep.
      destruct (step K env call w) as [w' o]. simpl in Hstep.
      specialize (IH w' Hstep).
      by destruct (run K env calls w') as [w'' os]. }
  split; [done|]. destruct H as [_ Hopen].
  intros i j ni nj Hi Hni Hj Hnj.
  pose proof (Hopen i ni Hi Hni). pose proof (Hopen j nj Hj Hnj). congruence.
Qed.

Lemma tidy_fresh : tidy freshProcess.
Proof. split; [done|]. intros i n Hi. by destruct i. Qed.

Lemma helper_never_leaks_witness :
  tidy (run clientV2 sampleEnvironment
          [Acquire credentialedConfiguration; Release;
           Acquire missingCredentialsConfiguration;
           Acquire plainConfiguration; Acquire credentialedConfiguration]
          freshProcess).1.
Proof.
  apply helper_never_leaks; [by right | exact tidy_fresh].
Defined.

(** X5: the two generations of [getNATSConnection] do the same thing
    exactly when a live connection is cached or the configuration has
    no credential path; with no live connection and a credential path
    they differ, the second one reading the file first. *)
Theorem generations_agree_exactly (env : Environment)
    (config : CLIConfiguration) (w : Process) :
  ClientV1.getNATSConnection env config w =
  ClientV2.getNATSConnection env config w ↔
  is_Some (liveConnection w) ∨ credentialPath config = None.
Proof.
  split.
  - intros Heq. destruct (liveConnection w) as [c|] eqn:Hlive; [eauto|].
    destruct (credentialPath config) as [path|] eqn:Hpath; [|by right].
    exfalso. apply (f_equal (λ r, events r.1)) in Heq. simpl in Heq.
    rewrite (V1_miss _ _ _ Hlive), (V2_miss _ _ _ Hlive) in Heq.
    rewrite V1_establish_cases, connect_and_store_events in Heq.
    rewrite V2_establish_cases in Heq. unfold credentialPath in Hpath.
    destruct (natsCredentials config) as [path'|]; [|done].
    destruct (truthyStr path'); [|done].
    destruct (fileContents env path') as [content|message].
    + rewrite connect_and_store_events in Heq. simpl in Heq.
      rewrite <- app_assoc in Heq. apply app_inv_head in Heq. done.
    + simpl in Heq. apply app_inv_head in Heq. done.
  - intros [[c Hlive]|Hnone].
    + by rewrite (V1_hit _ _ _ _ Hlive), (V2_hit _ _ _ _ Hlive).
    + by apply acquire_agree.
Qed.

(** ** Subjects of one project *)

(** X6: on one project id, two method calls give the same subject
    exactly when they are the same call, or when [agentDetails] is
    asked for an agent whose GUID is [list] or [shutdown], whose subject
    is then the one of [agentsList] or [agentShutdown]. *)
Theorem same_project_collisions (p : string) (m1 m2 : Method) :
  invoke p m1 = invoke p m2 ↔
  m1 = m2 ∨
  (m1 = AgentDetails "list" ∧ m2 = AgentsList) ∨
  (m1 = AgentsList ∧ m2 = AgentDetails "list") ∨
  (m1 = AgentDetails "shutdown" ∧ m2 = AgentShutdown) ∨
  (m1 = AgentShutdown ∧ m2 = AgentDetails "shutdown").
Proof.
  split.
  - intros H. rewrite !invoke_remainder in H.
    apply (inj (String.app "loom.")) in H.
    apply (inj (String.app p)) in H.
    apply (inj (String.app ".")) in H.
    destruct m1, m2; simpl in H; try discriminate H;
      try (left; reflexivity); simplify_eq; tauto.
  - intros [->|[[-> ->]|[[-> ->]|[[-> ->]|[-> ->]]]]]; reflexivity.
Qed.

(** ** Splitting and trimming *)

Lemma append_cons (c : ascii) (s t : string) :
  String c s +:+ t = String c (s +:+ t).
Proof. reflexivity. Qed.

Lemma append_nil_l (t : string) : EmptyString +:+ t = t.
Proof. reflexivity. Qed.

Lemma append_nil_r (s : string) : s +:+ EmptyString = s.
Proof.
  induction s as [|c s IH]; [done|]. by rewrite append_cons, IH.
Qed.

Lemma append_assoc (s t u : string) : (s +:+ t) +:+ u = s +:+ (t +:+ u).
Proof.
  induction s as [|c s IH]; [done|]. by rewrite !append_cons, IH.
Qed.

Lemma occurrences_append (c : ascii) (s t : string) :
  occurrences c (s +:+ t) = occurrences c s + occurrences c t.
Proof.
  induction s as [|d s IH]; [done|].
  rewrite append_cons. simpl. rewrite IH. lia.
Qed.

(** One step of [characters], the recursive calls left folded. *)
Lemma characters_cons (b0 : ascii) (s1 : string) :
  characters (String b0 s1) =
  let single :=
    standalone b0 :: characters s1 in
  match s1 with
  | EmptyString => single
  | String b1 s2 =>
      if between 194 223 (byteOf b0) && continuation b1 then
        {| codePoint := (payload b0 31 * 64 + payload b1 63)%N;
           encoding := String b0 (String b1 EmptyString) |}
        :: characters s2
      else
        match s2 with
        | EmptyString => single
        | String b2 s3 =>
            let cp3 :=
              (payload b0 15 * 4096 + payload b1 63 * 64 + payload b2 63)%N in
            if between 224 239 (byteOf b0) && continuation b1
               && continuation b2
               && (between 2048 55295 cp3 || between 57344 65535 cp3)
            then
              {| codePoint := cp3;
                 encoding := String b0 (String b1 (String b2 EmptyString)) |}
              :: characters s3
            else
              match s3 with
              | EmptyString => single
              | String b3 s4 =>
                  let cp4 :=
                    (payload b0 7 * 262144 + payload b1 63 * 4096
                     + payload b2 63 * 64 + payload b3 63)%N in
                  if between 240 247 (byteOf b0) && continuation b1
                     && continuation b2 && continuation b3
                     && between 65536 1114111 cp4
                  then
                    {| codePoint := cp4;
                       encoding :=
                         String b0
                           (String b1 (String b2 (String b3 EmptyString))) |}
                    :: characters s4
                  else single
              end
        end
  end.
Proof. reflexivity. Qed.

Lemma encode_cons (c : Character) (l : list Character) :
  encode (c :: l) = encoding c +:+ encode l.
Proof. reflexivity. Qed.

(** Decoding loses nothing: the bytes of the characters of a string
    are the string. *)
Lemma encode_characters (s : string) : encode (characters s) = s.
Proof.
  assert (∀ n s, (String.length s <= n)%nat → encode (characters s) = s) as H.
  { clear s. induction n as [|n IH]; intros s Hlen.
    - destruct s; [done | simpl in Hlen; lia].
    - destruct s as [|b0 s1]; [done|].
      rewrite characters_cons; cbv beta iota zeta.
      destruct s1 as [|b1 [|b2 [|b3 s4]]];
        repeat match goal with
               | |- context [if ?c then _ else _] => destruct c
               end;
        rewrite encode_cons; cbn [encoding standalone];
        rewrite ?append_cons, ?append_nil_l; repeat f_equal;
        try reflexivity; apply IH; simpl in *; lia. }
  by apply (H (String.length s)).
Qed.

Lemma encode_app (l1 l2 : list Character) :
  encode (l1 ++ l2) = encode l1 +:+ encode l2.
Proof.
  induction l1 as [|c l1 IH]; [done|].
  cbn [app encode foldr]. fold (encode (l1 ++ l2)) (encode l1).
  by rewrite IH, append_assoc.
Qed.

Lemma dropWhile_suffix {A : Type} (P : A → bool) (l : list A) :
  ∃ k, l = k ++ dropWhile P l ∧ forallb P k = true.
Proof.
  induction l as [|x l (k & IH & Hk)]; [by exists []|].
  simpl. destruct (P x) eqn:E.
  - exists (x :: k). simpl. rewrite E. split; [by rewrite <- IH | done].
  - by exists [].
Qed.

Lemma dropWhile_fixed {A : Type} (P : A → bool) (l : list A) :
  dropWhile P l = l ↔ match l with [] => True | x :: _ => P x = false end.
Proof.
  destruct l as [|x l]; [done|]. simpl. destruct (P x) eqn:E; [|done].
  split; [|done]. intros H.
  destruct (dropWhile_suffix P l) as (k & Hk & _).
  apply (f_equal length) in H. rewrite Hk in H at 2.
  simpl in H. rewrite length_app in H. lia.
Qed.

Lemma dropWhile_idempotent {A : Type} (P : A → bool) (l : list A) :
  dropWhile P (dropWhile P l) = dropWhile P l.
Proof.
  induction l as [|x l IH]; [done|]. simpl.
  destruct (P x) eqn:E; [done|]. simpl. by rewrite E.
Qed.

(** The kept characters are a run of the characters of the string. *)
Lemma trim_characters (s : string) :
  ∃ before after,
    characters s = before ++ kept (characters s) ++ after.
Proof.
  unfold kept.
  destruct (dropWhile_suffix blank (characters s)) as (k1 & H1 & _).
  destruct (dropWhile_suffix blank (rev (dropWhile blank (characters s))))
    as (k2 & H2 & _).
  exists k1, (rev k2). rewrite <- rev_app_distr, <- H2, rev_involutive.
  exact H1.
Qed.

Lemma trim_substring (s : string) :
  ∃ before after, s = before +:+ trim s +:+ after.
Proof.
  destruct (trim_characters s) as (k1 & k3 & H).
  exists (encode k1), (encode k3).
  rewrite <- (encode_characters s) at 1. rewrite H.
  by rewrite !encode_app.
Qed.

Lemma occurrences_trim (c : ascii) (s : string) :
  (occurrences c (trim s) <= occurrences c s)%nat.
Proof.
  destruct (trim_substring s) as (k1 & k3 & H). rewrite H at 2.
  rewrite !occurrences_append. lia.
Qed.

Ltac split_ifs :=
  repeat match goal with
         | H : context [if ?c then _ else _] |- _ => destruct c eqn:?
         end.

(** The first character read from a string and what is left. *)
Lemma characters_first (x : string) (c : Character) (l : list Character) :
  characters x = c :: l →
  ∃ rest, x = encoding c +:+ rest ∧ l = characters rest.
Proof.
  destruct x as [|b0 [|b1 [|b2 [|b3 s4]]]]; [done|..];
    rewrite characters_cons; cbv beta iota zeta;
    intros H; split_ifs; simplify_eq; cbn [encoding standalone]; eexists;
    (split; [reflexivity|reflexivity]).
Qed.

(** Reading the first character does not depend on how much of the rest
    is there. *)
Lemma characters_head_stable (x t2 u : string) (c : Character)
    (l : list Character) :
  characters x = c :: l →
  x = encoding c +:+ t2 +:+ u →
  characters (encoding c +:+ t2) = c :: characters t2.
Proof.
  destruct x as [|b0 [|b1 [|b2 [|b3 s4]]]]; [done|..];
    rewrite characters_cons; cbv beta iota zeta;
    intros H; split_ifs; simplify_eq; cbn [encoding standalone];
    rewrite ?append_cons, ?append_nil_l; intros Hx; simplify_eq;
    destruct t2 as [|c1 [|c2 [|c3 t2]]];
    rewrite ?append_cons, ?append_nil_l in *; simplify_eq;
    rewrite characters_cons; cbv beta iota zeta;
    repeat match goal with
           | H : ?c = _ |- context [if ?c then _ else _] => rewrite H
           end; reflexivity.
Qed.

(** A run of characters read from a string is read back from its own
    bytes. *)
Lemma characters_encode_prefix (x : string) (m r : list Character) :
  characters x = m ++ r → characters (encode m) = m.
Proof.
  revert x. induction m as [|c m IH]; intros x Hx; [done|].
  simpl in Hx. destruct (characters_first _ _ _ Hx) as (rest & Hrest & Hl).
  cbn [encode foldr]. fold (encode m).
  rewrite (characters_head_stable x (encode m) (encode r) c (m ++ r) Hx).
  - f_equal. by apply (IH rest).
  - rewrite Hrest. f_equal.
    by rewrite <- (encode_characters rest), <- Hl, encode_app.
Qed.

Lemma characters_encode_suffix (x : string) (k l : list Character) :
  characters x = k ++ l → ∃ rest, l = characters rest.
Proof.
  revert x. induction k as [|c k IH]; intros x Hx; [by exists x|].
  simpl in Hx. destruct (characters_first _ _ _ Hx) as (rest & _ & Hl).
  by apply (IH rest).
Qed.

Lemma kept_fixed (l : list Character) : kept (kept l) = kept l.
Proof.
  unfold kept.
  set (d := dropWhile blank l).
  assert (dropWhile blank d = d) as Hd by apply dropWhile_idempotent.
  destruct (dropWhile_suffix blank (rev d)) as (k & Hk & _).
  set (e := dropWhile blank (rev d)) in *.
  assert (d = rev e ++ rev k) as Hde.
  { by rewrite <- rev_app_distr, <- Hk, rev_involutive. }
  assert (dropWhile blank (rev e) = rev e) as Hhead.
  { destruct (rev e) as [|c m] eqn:E; [done|].
    rewrite Hde in Hd. simpl in Hd. simpl.
    destruct (blank c) eqn:Hc; [|done].
    exfalso. pose proof (dropWhile_suffix blank (m ++ rev k)) as (k' & Hk' & _).
    apply (f_equal (@length _)) in Hd, Hk'.
    rewrite !length_app in Hk'. simpl in Hd. rewrite !length_app in Hd.
    lia. }
  rewrite Hhead, rev_involutive. unfold e.
  by rewrite dropWhile_idempotent.
Qed.

Lemma characters_trim (s : string) : characters (trim s) = kept (characters s).
Proof.
  unfold trim.
  destruct (trim_characters s) as (before & after & H).
  destruct (characters_encode_suffix _ _ _ H) as (rest & Hrest).
  by apply (characters_encode_prefix rest _ after).
Qed.

Lemma trim_idempotent (s : string) : trim (trim s) = trim s.
Proof.
  unfold trim at 1. by rewrite characters_trim, kept_fixed.
Qed.

(** Joining the pieces of a split gives the string back. *)
Lemma split_join (sep : ascii) (s : string) :
  String.concat (String sep EmptyString) (split sep s) = s.
Proof.
  induction s as [|c s IH]; [done|]. cbn [split].
  destruct (Ascii.eqb c sep) eqn:E.
  - apply Ascii.eqb_eq in E as ->.
    destruct (split sep s) as [|token tokens] eqn:Hs; [by subst|].
    rewrite <- IH. reflexivity.
  - destruct (split sep s) as [|token [|token' tokens]] eqn:Hs.
    + by subst.
    + cbn [String.concat] in *. by subst.
    + cbn [String.concat] in *. rewrite <- IH. reflexivity.
Qed.

Lemma split_length (sep : ascii) (s : string) :
  length (split sep s) = S (occurrences sep s).
Proof.
  induction s as [|c s IH]; simpl; [done|].
  destruct (Ascii.eqb c sep); simpl; [by rewrite IH|].
  destruct (split sep s); simpl in *; lia.
Qed.

Lemma split_tokens (sep : ascii) (s : string) :
  Forall (λ token, occurrences sep token = 0) (split sep s).
Proof.
  induction s as [|c s IH]; simpl; [by constructor|].
  destruct (Ascii.eqb c sep) eqn:E; [by constructor|].
  destruct (split sep s) as [|token tokens].
  - constructor; [|done]. simpl. by rewrite E.
  - inversion IH as [|? ? Htoken Htokens]; subst.
    constructor; [|done]. simpl. by rewrite E, Htoken.
Qed.

Lemma commaSeparated_tokens (value : string) :
  length (commaSeparated value) = S (occurrences "," value) ∧
  Forall (λ token, trim token = token ∧ occurrences "," token = 0)
    (commaSeparated value).
Proof.
  unfold commaSeparated. split.
  - by rewrite length_map, split_length.
  - apply Forall_map. eapply Forall_impl; [apply split_tokens|].
    intros token Htoken. simpl in *. split; [apply trim_idempotent|].
    pose proof (occurrences_trim "," token) as Hle.
    rewrite Htoken in Hle. lia.
Qed.

Lemma commaSeparated_pieces (value : string) :
  piecesOf value (commaSeparated value).
Proof.
  exists (split "," value). split; [apply split_join|].
  split; [apply split_tokens | reflexivity].
Qed.

(** ** targets add and targets update *)




Lemma targetsAddRequest_lists (o : addOptions.t) (req : createTarget.t) :
  targetsAddRequest o = Proceed req →
  createTarget.capabilities req =
    match addOptions.capabilities o with
    | Some value => commaSeparated value
    | None => []
    end ∧
  createTarget.boundaries req = commaSeparated <$> addOptions.boundaries o.
Proof.
  unfold targetsAddRequest.
  destruct (if String.eqb (addOptions.mechanism o) "ssh" then _ else _);
    [|discriminate].
  by intros [= <-].
Qed.

(** X8: the capabilities and boundaries that [targets add] sends are
    the pieces of the option between its commas, each one trimmed as
    [String.prototype.trim] does (no-break spaces and the other Unicode
    white space included): joining the untrimmed pieces with commas
    gives the option back, there is one piece more than the option has
    commas, and a piece that is sent has no comma and nothing left to
    trim; without [--capabilities] the list is empty, and without
    [--boundaries] no list is sent. *)
Theorem targets_add_lists_are_trimmed (o : addOptions.t)
    (req : createTarget.t) :
  targetsAddRequest o = Proceed req →
  match addOptions.capabilities o with
  | Some value =>
      piecesOf value (createTarget.capabilities req) ∧
      length (createTarget.capabilities req) = S (occurrences "," value) ∧
      Forall (λ c, trim c = c ∧ occurrences "," c = 0)
        (createTarget.capabilities req)
  | None => createTarget.capabilities req = []
  end ∧
  match addOptions.boundaries o, createTarget.boundaries req with
  | Some value, Some boundaries =>
      piecesOf value boundaries ∧
      length boundaries = S (occurrences "," value) ∧
      Forall (λ b, trim b = b ∧ occurrences "," b = 0) boundaries
  | None, None => True
  | _, _ => False
  end.
Proof.
  intros [-> ->]%targetsAddRequest_lists.
  split.
  - destruct (addOptions.capabilities o) as [value|]; [|done].
    split; [apply commaSeparated_pieces | apply commaSeparated_tokens].
  - destruct (addOptions.boundaries o) as [value|]; simpl; [|done].
    split; [apply commaSeparated_pieces | apply commaSeparated_tokens].
Qed.

Lemma targets_add_lists_are_trimmed_witness :
  ∃ req, targetsAddRequest paddedOptions = Proceed req ∧
         createTarget.capabilities req = ["typescript"; "python"; "go"] ∧
         createTarget.boundaries req = Some ["staging"; EmptyString] ∧
         piecesOf ("typescript," +:+ nbsp +:+ "python" +:+ nbsp +:+ ", go")
           (createTarget.capabilities req) ∧
         Forall (λ c, trim c = c ∧ occurrences "," c = 0)
           (createTarget.capabilities req).
Proof.
  eexists. split; [reflexivity|]. split; [reflexivity|].
  split; [reflexivity|].
  destruct (targets_add_lists_are_trimmed paddedOptions _ eq_refl)
    as [(Hpieces & _ & Htrimmed) _].
  split; [exact Hpieces | exact Htrimmed].
Defined.



(** ** Confirmation before a destructive request *)






(** ** spin-up *)

(** The three ways [spin-up] can go: it stops before any call, it
    stops after the listing, or it reaches [client.spinUpTarget]. *)
Lemma spinUpAction_cases (o : spinUpOptions.t) (g : globalOpts.t)
    (api : SpinUpApi) :
  (∃ printed, spinUpAction o g api = ([], Exit 1 printed)) ∨
  (∃ printed,
     spinUpAction o g api =
     ([ListTargets (spinUpOptions.type o) (spinUpOptions.capability o)],
      Exit 1 printed)) ∨
  (∃ before targetId,
     (spinUpAction o g api).1 = before ++ [SpinUpTarget targetId] ∧
     (spinUpAction o g api).2 =
     let response := spinUpTarget api targetId in
     if negb (ok response) then
       Exit 1 ["Error: " +:+
               orElseStr (error response)
                 ("HTTP " +:+ pretty (status response))]
     else
       match data response with
       | None => Exit 1 ["Error: " +:+ cannotRead "success"]
       | Some result =>
           if globalOpts.json g || isSuccess result then Proceed result
           else
             Exit 1 ["Spin-up failed: " +:+
                     orElseStr
                       (orElseOpt (spinUpResult.error result)
                          (spinUpResult.message result))
                       "Unknown error"]
       end).
Proof.
  unfold spinUpAction.
  destruct (negb (truthyOpt (spinUpOptions.target o)) && _ && _ && _);
    [left; eauto|].
  destruct (truthyOpt (spinUpOptions.target o)) eqn:Ht.
  - right. right. exists [], (spinUpOptions.target o). simpl.
    split; [done|].
    destruct (negb (ok _)); [done|]. destruct (data _) as [result|]; [|done].
    by destruct (globalOpts.json g).
  - destruct (negb (ok (listTargets api _ _))); [right; left; eauto|].
    destruct (default [] _) as [|first rest] eqn:El; [right; left; eauto|].
    right. right. eexists [_], _. simpl. split; [done|].
    destruct (negb (ok _)); [done|]. destruct (data _) as [result|]; [|done].
    by destruct (globalOpts.json g).
Qed.

(** X12: [spin-up] never hands [--boundary] to the API: as soon as a
    target, a type or a capability is given, the calls made and the
    ending are the same whatever [--boundary] says. *)
Theorem spin_up_ignores_boundary (o : spinUpOptions.t) (b : option string)
    (g : globalOpts.t) (api : SpinUpApi) :
  truthyOpt (spinUpOptions.target o) || truthyOpt (spinUpOptions.type o)
  || truthyOpt (spinUpOptions.capability o) = true →
  spinUpAction
    {| spinUpOptions.target := spinUpOptions.target o;
       spinUpOptions.type := spinUpOptions.type o;
       spinUpOptions.capability := spinUpOptions.capability o;
       spinUpOptions.boundary := b |} g api =
  spinUpAction o g api.
Proof.
  intros H. unfold spinUpAction. simpl.
  destruct (truthyOpt (spinUpOptions.target o)),
    (truthyOpt (spinUpOptions.type o)),
    (truthyOpt (spinUpOptions.capability o)); simpl in *; done.
Qed.

Lemma spin_up_ignores_boundary_witness :
  spinUpAction (filterOptions (Some "production")) plainGlobals
    sampleSpinUpApi =
  spinUpAction (filterOptions None) plainGlobals sampleSpinUpApi.
Proof.
  exact (spin_up_ignores_boundary (filterOptions None) (Some "production")
           plainGlobals sampleSpinUpApi eq_refl).
Defined.



(** X14: once the spin-up request is answered by an ok response with a
    result, [spin-up] with [--json] always ends normally with that
    result, whatever it reports; without [--json] it ends normally
    exactly when the result has [success === true] or the status
    [in-progress] or [completed], and otherwise exits with status 1 and
    the line [Spin-up failed:] followed by the error, else the message,
    else [Unknown error]. *)
Theorem spin_up_ending (o : spinUpOptions.t) (g : globalOpts.t)
    (api : SpinUpApi) (targetId : option string)
    (result : spinUpResult.t) :
  last (spinUpAction o g api).1 = Some (SpinUpTarget targetId) →
  ok (spinUpTarget api targetId) = true →
  data (spinUpTarget api targetId) = Some result →
  (spinUpAction o g api).2 =
  if globalOpts.json g || isSuccess result then Proceed result
  else
    Exit 1 ["Spin-up failed: " +:+
            orElseStr
              (orElseOpt (spinUpResult.error result)
                 (spinUpResult.message result))
              "Unknown error"].
Proof.
  intros Hlast Hok Hdata.
  destruct (spinUpAction_cases o g api)
    as [[printed H]|[[printed H]|(before & t & Hcalls & Hend)]].
  - by rewrite H in Hlast.
  - by rewrite H in Hlast.
  - rewrite Hcalls, last_snoc in Hlast. injection Hlast as ->.
    rewrite Hend. cbv zeta. by rewrite Hok, Hdata.
Qed.

Lemma spin_up_ending_witness :
  (spinUpAction targetOptions plainGlobals sampleSpinUpApi).2 =
    Exit 1 ["Spin-up failed: host unreachable"] ∧
  ∃ result, (spinUpAction targetOptions jsonGlobals sampleSpinUpApi).2 =
            Proceed result ∧ isSuccess result = false.
Proof.
  split.
  - exact (spin_up_ending targetOptions plainGlobals sampleSpinUpApi
             (Some "build-box") _ eq_refl eq_refl eq_refl).
  - eexists. split.
    + exact (spin_up_ending targetOptions jsonGlobals sampleSpinUpApi
               (Some "build-box") _ eq_refl eq_refl eq_refl).
    + reflexivity.
Defined.

(** ** projects, over NATS *)

(** X15: the subject the [projects] command requests,
    [coord.global.stats], is not a subject of [LoomSubjects]: no method
    produces it for any project id and any argument. *)
Theorem global_stats_subject_is_foreign (p : string) (m : Method) :
  invoke p m ≠ "coord.global.stats".
Proof. rewrite invoke_remainder. discriminate. Qed.

(** X16: the [projects] command, with either generation of the helper:
    when the request is answered, the cached connection is drained and
    closed and the cache reset before the statistics are printed, so no
    live connection remains; when the request fails (time-out, bad
    answer) the command exits with status 1 and the message of the
    failure, and the connection it acquired is left open in the cache:
    [closeNATSConnection] is not reached. *)
Theorem projects_connection_lifecycle {GlobalStats : Type} (K : Client)
    (env : Environment) (reply : string → string → Z → Outcome GlobalStats)
    (config : CLIConfiguration) (w w1 : Process) (nc : nat) :
  K = clientV1 ∨ K = clientV2 →
  acquire K env config w = (w1, Return nc) →
  match reply "coord.global.stats" "{}" 5000%Z with
  | Return stats =>
      (projectsAction K env reply config w).2 = Proceed stats ∧
      liveConnection (projectsAction K env reply config w).1 = None ∧
      events (projectsAction K env reply config w).1 =
        events w1 ++ [Drain nc; Close nc]
  | Throw message =>
      projectsAction K env reply config w =
        (w1, Exit 1 ["Error: " +:+ message]) ∧
      liveConnection w1 = Some nc
  end.
Proof.
  intros HK Hacquire.
  assert (liveConnection w1 = Some nc) as Hlive.
  { pose proof (client_acquisition K env config w HK) as Hacq.
    rewrite Hacquire in Hacq. by apply acquired_is_live in Hacq. }
  unfold projectsAction. rewrite Hacquire.
  destruct (reply _ _ _) as [stats|message]; [|done].
  rewrite (client_release K w1 HK), (V2_close_live w1 nc Hlive). simpl.
  done.
Qed.

Lemma projects_connection_lifecycle_witness :
  projectsAction clientV2 sampleEnvironment
    (λ _ _ _, Throw "TIMEOUT" : Outcome Z) plainConfiguration freshProcess =
  ((ClientV2.getNATSConnection sampleEnvironment plainConfiguration
      freshProcess).1, Exit 1 ["Error: TIMEOUT"]) ∧
  liveConnection
    (projectsAction clientV2 sampleEnvironment
       (λ _ _ _, Throw "TIMEOUT" : Outcome Z) plainConfiguration
       freshProcess).1 = Some 0 ∧
  liveConnection
    (projectsAction clientV2 sampleEnvironment
       (λ _ _ _, Return 3%Z) plainConfiguration freshProcess).1 = None.
Proof.
  pose proof (projects_connection_lifecycle clientV2 sampleEnvironment
                (λ _ _ _, Throw "TIMEOUT" : Outcome Z) plainConfiguration
                freshProcess _ 0 (or_intror eq_refl) eq_refl) as [H1 H2].
  pose proof (projects_connection_lifecycle clientV2 sampleEnvironment
                (λ _ _ _, Return 3%Z) plainConfiguration
                freshProcess _ 0 (or_intror eq_refl) eq_refl) as (_ & H3 & _).
  split; [exact H1|]. split; [|exact H3]. rewrite H1. exact H2.
Defined.

(** ** What submit lets through *)

(** X17: whatever path it takes (prompts or options), [submit] only
    calls [client.submitWork] with a boundary that is not blank (not
    empty after trimming) and, when [--agent-type] is given and not
    empty, with one of the two valid agent types; every other ending is
    an exit with status 1. *)
Theorem submit_validates_boundary_and_agent (descriptionArg : option string)
    (o : options.t) (g : globalOpts.t) (config : CLIConfiguration)
    (prompted : WorkDetails) (uuid : string) :
  (∀ req, submitAction descriptionArg o g config prompted uuid = Proceed req →
     trim (request.boundary req) ≠ EmptyString ∧
     (∀ a, options.agentType o = Some a → a ≠ EmptyString →
           a = "copilot-cli" ∨ a = "claude-code")) ∧
  (∀ code printed,
     submitAction descriptionArg o g config prompted uuid = Exit code printed →
     code = 1%Z).
Proof.
  unfold submitAction.
  destruct (if needsInteractive descriptionArg o && negb (globalOpts.json g)
            then _ else _) as [details|code printed] eqn:Edetails.
  - destruct (negb (truthyStr (boundary details)) || _) eqn:Eblank.
    { split; [done|]. by intros ? ? [= <- _]. }
    apply orb_false_elim in Eblank as [_ Eblank].
    assert (trim (boundary details) ≠ EmptyString) as Hblank.
    { intros Heq. by rewrite Heq in Eblank. }
    destruct (options.agentType o) as [a|].
    + destruct (truthyStr a && _) eqn:Ea.
      { split; [done|]. by intros ? ? [= <- _]. }
      split; [|done]. intros req [= <-]. split; [done|].
      intros a' [= <-] Hne.
      assert (truthyStr a = true) as Ht by by destruct a.
      rewrite Ht in Ea. simpl in Ea.
      apply negb_false_iff, bool_decide_eq_true in Ea.
      unfold validAgentTypes in Ea.
      apply elem_of_cons in Ea as [->|Ea]; [by left|].
      apply elem_of_cons in Ea as [->|Ea]; [by right|].
      by apply elem_of_nil in Ea.
    + split; [|done]. intros req [= <-]. by split.
  - split; [done|]. intros ? ? [= <- _].
    destruct (needsInteractive descriptionArg o && negb (globalOpts.json g));
      [done|].
    unfold required in Edetails.
    destruct descriptionArg as [d|]; [destruct (truthyStr d)|];
      try by injection Edetails as <-.
    destruct (options.boundary o) as [b|]; [destruct (truthyStr b)|];
      try by injection Edetails as <-.
    destruct (options.capability o) as [c|]; [destruct (truthyStr c)|];
      try by injection Edetails as <-.
    done.
Qed.

Lemma submit_validates_boundary_and_agent_witness :
  (∃ req, submitAction None interactiveOptions plainGlobals
            plainConfiguration promptedDetails "0b1c" = Proceed req ∧
          trim (request.boundary req) ≠ EmptyString) ∧
  submitAction None interactiveOptions plainGlobals plainConfiguration
    blankDetails "0b1c" = Exit 1 ["Boundary must be a non-empty string"].
Proof.
  split; [|reflexivity].
  destruct (submit_validates_boundary_and_agent None interactiveOptions
              plainGlobals plainConfiguration promptedDetails "0b1c")
    as [H _].
  eexists. split; [reflexivity|]. by apply H.
Defined.



(** ** Failed responses *)

(** X19: on a response that is not ok, [work show], [shutdown] and
    [targets show] all exit with status 1 and one line [Error: reason]
    whose reason is never empty: the remote error text or else
    [HTTP <status>]; [targets show] gives the same reason as the others
    for every status but 404, where the reason is [Target not found:]
    and the target, whatever the remote error text. *)
Theorem failed_response_reasons {T : Type} (id : string)
    (response : ResponseEnvelope T) :
  ok response = false →
  ∃ reason,
    truthyStr reason = true ∧
    reason =
      match error response with
      | Some text =>
          if truthyStr text then text
          else "HTTP " +:+ pretty (status response)
      | None => "HTTP " +:+ pretty (status response)
      end ∧
    workShowAction id response = Exit 1 ["Error: " +:+ reason] ∧
    shutdownCommand id response = Exit 1 ["Error: " +:+ reason] ∧
    targetsShowCommand id response =
      Exit 1 ["Error: " +:+
              (if (status response =? 404)%Z
               then "Target not found: " +:+ id else reason)].
Proof.
  unfold workShowAction, shutdownCommand, targetsShowCommand.
  intros ->. simpl.
  exists (orElseStr (error response) ("HTTP " +:+ pretty (status response))).
  split; [|split].
  - destruct (error response) as [e|]; simpl; [|done].
    by destruct (truthyStr e) eqn:E.
  - destruct (error response) as [e|]; [|done]. simpl.
    by destruct (truthyStr e).
  - split; [done|]. split; [done|].
    by destruct (status response =? 404)%Z.
Qed.

Lemma failed_response_reasons_witness :
  workShowAction "build-box" notFound = Exit 1 ["Error: HTTP 404"] ∧
  shutdownCommand "build-box" notFound = Exit 1 ["Error: HTTP 404"] ∧
  targetsShowCommand "build-box" notFound =
    Exit 1 ["Error: Target not found: build-box"].
Proof.
  destruct (failed_response_reasons "build-box" notFound eq_refl)
    as (reason & _ & -> & Hw & Hs & Htg).
  split; [exact Hw|]. split; [exact Hs|]. exact Htg.
Defined.
